(** * ufcli: run-lifecycle coordinator of go-toolbox

    A shallow embedding of [ufcli/ufcli.go] and [cmn.WrErr]: the
    sanitiser [promStr], the raw-argument scan and lock acquisition of the
    [app.Before] hook, the once-guarded [shutdown] closure, the outcome
    recorder [emitEndLogs] and the deferred epilogue of [RunAndExit].

    Go strings are byte strings; they are modelled as [string] (a list of
    8-bit [ascii]).  Everything the program does to the outside world
    (log lines, callbacks, lock attempts, metric pushes) is appended to a
    trace of [Event]s; [os.Exit] ends the trace with an exit code. *)

From stdpp Require Import base decidable option list strings gmap fin_maps sorting.
From Stdlib Require Import ZArith Ascii String Lia OrdersEx.

Local Open Scope string_scope.
Local Open Scope list_scope.

(* stdpp freezes [String.append] for [simpl]; the proofs below compute
   with it on message literals. *)
#[local] Arguments String.append _ _ : simpl nomatch.

(** ** Sanitiser: [promStr] and the regexp [[^a-zA-Z0-9]+] *)

Module Sanitize.

(** The character class [a-zA-Z0-9] on one byte.  Bytes of a multi-byte
    UTF-8 rune (and invalid bytes, which Go's regexp reads as U+FFFD) are
    all >= 128, hence outside the class, as the rune itself is. *)
Definition is_alnum (c : ascii) : bool :=
  let n := N_of_ascii c in
  ((48 <=? n) && (n <=? 57) || (65 <=? n) && (n <=? 90)
   || (97 <=? n) && (n <=? 122))%N.

(** [replace_runs in_run s]: the scan of [ReplaceAllString] for the
    pattern [[^a-zA-Z0-9]+] with replacement ["_"].  [in_run] says that
    the bytes just before [s] belong to a match already replaced: the
    greedy [+] swallows the following non-alphanumeric bytes. *)
Fixpoint replace_runs (in_run : bool) (s : string) : string :=
  match s with
  | EmptyString => EmptyString
  | String c rest =>
      if is_alnum c then String c (replace_runs false rest)
      else if in_run then replace_runs true rest
      else String "_" (replace_runs true rest)
  end.

(** [func promStr(s string) string] *)
Definition promStr (s : string) : string := replace_runs false s.

(** What one greedy match of the pattern consumes. *)
Fixpoint skip_run (s : string) : string :=
  match s with
  | EmptyString => EmptyString
  | String c rest => if is_alnum c then s else skip_run rest
  end.

(** A sanitised token: only alphanumerics and underscores, and an
    underscore is never followed by another one.  [prev_us] says that the
    byte before [s] was an underscore. *)
Fixpoint clean_from (prev_us : bool) (s : string) : bool :=
  match s with
  | EmptyString => true
  | String c rest =>
      if is_alnum c then clean_from false rest
      else if Ascii.eqb c "_" then negb prev_us && clean_from true rest
      else false
  end.

Definition clean_token (s : string) : bool := clean_from false s.

(** The last byte of [s] is outside [a-zA-Z0-9] ([d] for the empty string). *)
Fixpoint ends_in_run (d : bool) (s : string) : bool :=
  match s with
  | EmptyString => d
  | String c rest => ends_in_run (negb (is_alnum c)) rest
  end.

(** The first byte of [s] is outside [a-zA-Z0-9]. *)
Definition starts_in_run (s : string) : bool :=
  match s with
  | EmptyString => false
  | String c _ => negb (is_alnum c)
  end.

End Sanitize.

Import Sanitize.

(** ** Errors: the [error] values that reach [RunAndExit] *)

(** A Go [error] interface value is [option error], [None] being [nil]. *)
Inductive error : Type :=
| ErrorString (msg : string)                (* errors.New, fmt.Errorf without %w *)
| LockedError (msg : string)                (* fslock.LockedError *)
| PathError (op path : string) (err : error)  (* *os.PathError, as fslock.Lock returns *)
| cmnErr (err : error) (frame : string).    (* *cmn.cmnErr: wrapped error, rendered call frame *)

(** [cmn.WrErr]; [frame] renders [xerrors.Caller(1)]. *)
Definition WrErr (frame : string) (err : option error) : option error :=
  match err with
  | None => None
  | Some e => Some (cmnErr e frame)
  end.

(** [func (e *cmnErr) Unwrap() error], and [Unwrap] of the other kinds. *)
Definition Unwrap (e : error) : option error :=
  match e with
  | cmnErr err _ => Some err
  | PathError _ _ err => Some err
  | ErrorString _ | LockedError _ => None
  end.

(** [Error()]: for a [cmnErr] this is [fmt.Sprint(e)], which goes through
    [FormatError] with [p.Detail()] false, so that only the wrapped text
    is printed. *)
Fixpoint Error (e : error) : string :=
  match e with
  | ErrorString msg => msg
  | LockedError msg => msg
  | PathError op path err => op +:+ " " +:+ path +:+ ": " +:+ Error err
  | cmnErr err _ => Error err
  end.

(** The verb [%+v]: [FormatError] with [p.Detail()] true prints the
    wrapped error (recursively, when it is itself a formatter) and then
    the frame; the other kinds have no [Format] method and print [Error()]. *)
Fixpoint FormatError (e : error) : string :=
  match e with
  | cmnErr err frame => FormatError err +:+ frame
  | _ => Error e
  end.

(** [errors.As(err, new(fslock.LockedError))]: walk the [Unwrap] chain. *)
Fixpoint errors_As_LockedError (e : error) : bool :=
  match e with
  | LockedError _ => true
  | PathError _ _ err => errors_As_LockedError err
  | cmnErr err _ => errors_As_LockedError err
  | ErrorString _ => false
  end.

(** ** Configuration, collaborators and run state *)

Module Command.
(** [cli.Command], the two fields the hook reads. *)
Record t : Type := { Name : string; Aliases : list string }.
End Command.

Module App.
(** [cli.App]: [Name], and [Commands] as [cctx.App.Commands] shows them
    to the hook (the engine may have appended its [help] command). *)
Record t : Type := { Name : string; Commands : list Command.t }.
End App.

(** The handle [fslock.Lock] returns (an [io.Closer]); it carries the
    path of the lock file. *)
Inductive Closer : Type := LockHandle (path : string).

(** A [func() error] is modelled by the error it returns when called,
    a nil function by [None]. *)
Record UFcli : Type := {
  AppConfig : App.t;
  TOMLPath : string;
  (** [None]: nil; [Some (closer, err)]: the pair the callback returns. *)
  GlobalInit : option (option (option error) * option error);
  BeforeShutdown : option (option error)
}.

(** How [(&app).RunContext] ends once the hook has let it proceed:
    the command returns, or something below it panics. *)
Inductive Outcome : Type :=
| Returns (err : option error)
| Panics (r : string).          (* [r]: the panic value as [%s] prints it *)

(** When the signal watcher's [<-sigs] fires, if at all.  The watcher
    is a goroutine of its own; [sync.Once] makes a call of [shutdown]
    that meets a running one wait for it, so that an interleaving with
    the main flow is a sequence of calls, the watcher's placed at one of
    three points of the main flow. *)
Inductive SignalTiming : Type :=
| SigNever
| SigBeforeHook      (* before the engine reaches [app.Before] *)
| SigDuringBody      (* after the hook, while the command runs *)
| SigBeforeEpilogue. (* after the engine is done, before the deferred block *)

(** Everything outside the coordinator: the process environment and the
    answers of the external collaborators. *)
Record World : Type := {
  os_Args : list string;
  os_TempDir : string;
  (** result of [altsrc.InitInputSourceWithContext(...)(cctx)] *)
  toml_load : option error;
  (** [cctx.String] of the four hidden flags *)
  flag_url : string;
  flag_user : string;
  flag_pass : string;
  flag_instance : string;
  (** [fslock.Lock(dir, name)]: the Go pair [(io.Closer, error)] *)
  fslock_Lock : string -> string -> option Closer * option error;
  (** [isatty.IsTerminal(os.Stderr.Fd())] *)
  stderr_is_terminal : bool;
  (** [time.Since(startTime)] in nanoseconds, read by [emitEndLogs] *)
  elapsed : Z;
  (** result of [Push()] *)
  push_result : option string;
  (** [debug.Stack()] *)
  debug_Stack : string;
  (** rendered frames of the two [cmn.WrErr] call sites of the hook *)
  frame_toml : string;
  frame_init : string;
  (** whether the engine gets as far as calling [app.Before] *)
  engine_calls_Before : bool;
  engine_body : Outcome;
  signal : SignalTiming
}.

Record PushConf : Type := {
  url : string; user : string; pass : string; instance : string
}.

(** The variables [RunAndExit] closes over. *)
Record RunState : Type := {
  once_done : bool;                          (* [o sync.Once] has fired *)
  resourcesCloser : option (option error);
  scopeErr : option error;
  currentCmd : string;
  currentCmdLock : option Closer;
  promPushConf : PushConf
}.

Definition initial : RunState :=
  {| once_done := false; resourcesCloser := None; scopeErr := None;
     currentCmd := ""; currentCmdLock := None;
     promPushConf := {| url := ""; user := ""; pass := ""; instance := "" |} |}.

Definition set_once_done (b : bool) (st : RunState) : RunState :=
  {| once_done := b; resourcesCloser := resourcesCloser st;
     scopeErr := scopeErr st; currentCmd := currentCmd st;
     currentCmdLock := currentCmdLock st; promPushConf := promPushConf st |}.

Definition set_resourcesCloser (c : option (option error)) (st : RunState) : RunState :=
  {| once_done := once_done st; resourcesCloser := c;
     scopeErr := scopeErr st; currentCmd := currentCmd st;
     currentCmdLock := currentCmdLock st; promPushConf := promPushConf st |}.

Definition set_scopeErr (e : option error) (st : RunState) : RunState :=
  {| once_done := once_done st; resourcesCloser := resourcesCloser st;
     scopeErr := e; currentCmd := currentCmd st;
     currentCmdLock := currentCmdLock st; promPushConf := promPushConf st |}.

Definition set_currentCmd (c : string) (st : RunState) : RunState :=
  {| once_done := once_done st; resourcesCloser := resourcesCloser st;
     scopeErr := scopeErr st; currentCmd := c;
     currentCmdLock := currentCmdLock st; promPushConf := promPushConf st |}.

Definition set_currentCmdLock (l : option Closer) (st : RunState) : RunState :=
  {| once_done := once_done st; resourcesCloser := resourcesCloser st;
     scopeErr := scopeErr st; currentCmd := currentCmd st;
     currentCmdLock := l; promPushConf := promPushConf st |}.

Definition set_promPushConf (p : PushConf) (st : RunState) : RunState :=
  {| once_done := once_done st; resourcesCloser := resourcesCloser st;
     scopeErr := scopeErr st; currentCmd := currentCmd st;
     currentCmdLock := currentCmdLock st; promPushConf := p |}.

(** ** Observable events *)

Inductive Level : Type := InfoLevel | WarnLevel | ErrorLevel.

(** Key/value arguments of a structured log line. *)
Inductive LogArg : Type :=
| ArgBool (b : bool)
| ArgDuration (ns : Z).       (* [d.String()] of a duration of [ns] nanoseconds *)

Inductive Event : Type :=
| Log (lvl : Level) (msg : string) (args : list (string * LogArg))
| CallBeforeShutdown                 (* uf.BeforeShutdown() *)
| CancelContext                      (* topCtxShutdown() *)
| CallResourcesCloser                (* resourcesCloser() *)
| Sleep250ms                         (* time.Sleep(250 * time.Millisecond) *)
| LoadConfig (path : string)         (* altsrc ... NewTomlSourceFromFile *)
| LockAttempt (dir key : string)     (* fslock.Lock(dir, key) *)
| CallGlobalInit                     (* uf.GlobalInit(cctx, uf) *)
| Close (h : Closer)                 (* Close() on a lock handle *)
| Push (target job : string) (grouping : option string)
       (auth : option (string * string)) (gauges : list (string * Z)).

(** ** The monad of the closures: run state plus an event trace *)

Definition M (A : Type) : Type := RunState -> A * RunState * list Event.

Definition ret {A} (a : A) : M A := fun st => (a, st, []).

Definition bind {A B} (m : M A) (k : A -> M B) : M B :=
  fun st =>
    let r1 := m st in
    let r2 := k (fst (fst r1)) (snd (fst r1)) in
    (fst (fst r2), snd (fst r2), snd r1 ++ snd r2).

Definition emit (e : Event) : M unit := fun st => (tt, st, [e]).
Definition get : M RunState := fun st => (st, st, []).
Definition modify (f : RunState -> RunState) : M unit := fun st => (tt, f st, []).
Definition when (b : bool) (m : M unit) : M unit := if b then m else ret tt.

Notation "x <- c ;; k" := (bind c (fun x => k))
  (at level 100, c at next level, right associativity).
Notation "c ;;; k" := (bind c (fun _ => k))
  (at level 100, right associativity).

Definition newline : string := String (ascii_of_nat 10) EmptyString.

(** ** [time.Duration] (int64 nanoseconds) *)

Definition Millisecond : Z := 1000000.

(** [d.Truncate(m)]: [d - d%m], Go's [%] truncating toward zero. *)
Definition Truncate (d m : Z) : Z :=
  if (m <=? 0)%Z then d else (d - Z.rem d m)%Z.

(** [d.Milliseconds()] *)
Definition Milliseconds (d : Z) : Z := Z.quot d 1000000.

(** ** The closures of [RunAndExit] *)

Section Run.

Variable uf : UFcli.
Variable w : World.

(** [o.Do(f)] *)
Definition Do (f : M unit) : M unit :=
  fun st =>
    if once_done st then (tt, st, [])
    else let r := f st in (tt, set_once_done true (snd (fst r)), snd r).

(** The function literal handed to [o.Do] inside [shutdown]. *)
Definition shutdown_body (isNormal : bool) : M unit :=
  match BeforeShutdown uf with
  | Some r =>
      emit CallBeforeShutdown ;;;
      match r with
      | Some err =>
          emit (Log WarnLevel
                  ("error encountered during before-shutdown cleanup: "
                   +:+ FormatError err) [])
      | None => ret tt
      end
  | None => ret tt
  end ;;;
  emit CancelContext ;;;
  st <- get ;;
  match resourcesCloser st with
  | Some r =>
      emit CallResourcesCloser ;;;
      match r with
      | Some err =>
          emit (Log WarnLevel
                  ("error encountered during after-shutdown cleanup: "
                   +:+ FormatError err) [])
      | None => ret tt
      end
  | None => ret tt
  end ;;;
  when (negb isNormal) (emit Sleep250ms).

(** [shutdown := func(isNormal bool) { o.Do(...) }] *)
Definition shutdown (isNormal : bool) : M unit := Do (shutdown_body isNormal).

(** The signal goroutine, from [<-sigs] on. *)
Definition signal_watcher : M unit :=
  emit (Log WarnLevel "termination signal received, cleaning up..." []) ;;;
  shutdown false.

Definition fires_at (p : SignalTiming) : bool :=
  match signal w, p with
  | SigBeforeHook, SigBeforeHook => true
  | SigDuringBody, SigDuringBody => true
  | SigBeforeEpilogue, SigBeforeEpilogue => true
  | _, _ => false
  end.

(** A point of the main flow at which the watcher may run. *)
Definition signal_point (p : SignalTiming) : M unit :=
  when (fires_at p) signal_watcher.

(** The two gauges of [emitEndLogs], as (name, value). *)
Definition cmdFqName (st : RunState) : string :=
  promStr (App.Name (AppConfig uf) +:+ "_" +:+ currentCmd st).

Definition tookGauge (st : RunState) (took : Z) : string * Z :=
  (cmdFqName st +:+ "_run_time", Milliseconds took).

Definition successGauge (st : RunState) (wasSuccess : bool) : string * Z :=
  (cmdFqName st +:+ "_success", if wasSuccess then 1%Z else 0%Z).

(** [emitEndLogs := func(wasSuccess bool) { ... }] *)
Definition emitEndLogs (wasSuccess : bool) : M unit :=
  st <- get ;;
  match currentCmdLock st with
  | None => ret tt
  | Some _ =>
      let took := Truncate (elapsed w) Millisecond in
      let logHdr := "=== FINISH '" +:+ currentCmd st +:+ "' run" in
      let logArgs := [("success", ArgBool wasSuccess); ("took", ArgDuration took)] in
      emit (Log (if wasSuccess then InfoLevel else WarnLevel) logHdr logArgs) ;;;
      let conf := promPushConf st in
      if bool_decide (url conf = "") then ret tt
      else
        emit (Push (url conf) (promStr (currentCmd st))
                (if bool_decide (instance conf = "") then None
                 else Some (promStr (instance conf)))
                (if bool_decide (user conf = "") then None
                 else Some (user conf, pass conf))
                [tookGauge st took; successGauge st wasSuccess]) ;;;
        match push_result w with
        | Some promErr =>
            emit (Log WarnLevel
                    ("push of prometheus metrics to '" +:+ url conf
                     +:+ "' failed: " +:+ promErr) [])
        | None => ret tt
        end
  end.

(** *** The pre-execution hook [app.Before] *)

(** One command's entries of [cmdNames]. *)
Definition add_command (m : gmap string string) (c : Command.t) : gmap string string :=
  if bool_decide (Command.Name c = "help") then m
  else foldl (fun m a => <[a := Command.Name c]> m)
             (<[Command.Name c := Command.Name c]> m) (Command.Aliases c).

Definition build_cmdNames (cs : list Command.t) : gmap string string :=
  foldl add_command ∅ cs.

Definition is_help_flag (a : string) : bool :=
  bool_decide (a = "-h") || bool_decide (a = "--help").

(** The loop [for i := 1; i < len(os.Args); i++], over [os.Args[1:]]:
    the new [currentCmd], and whether the loop left through the
    [return nil] of the help test. *)
Fixpoint scan_args (cmdNames : gmap string string) (args : list string)
    (cur : string) : string * bool :=
  match args with
  | [] => (cur, false)
  | a :: rest =>
      if is_help_flag a then (cur, true)
      else if negb (bool_decide (cur = "")) then scan_args cmdNames rest cur
      else scan_args cmdNames rest (default "" (cmdNames !! a))
  end.

(** The key handed to [fslock.Lock]. *)
Definition lock_key (cmd : string) : string :=
  promStr (App.Name (AppConfig uf)) +:+ "-" +:+ promStr cmd.

(** [app.Before = func(cctx *cli.Context) error { ... }].  The two
    [logging.SetLogLevel] calls touch nothing that is modelled here and
    are left out. *)
Definition Before : M (option error) :=
  emit (LoadConfig (TOMLPath uf)) ;;;
  match toml_load w with
  | Some err => ret (WrErr (frame_toml w) (Some err))
  | None =>
      modify (set_promPushConf
                {| url := flag_url w; user := flag_user w;
                   pass := flag_pass w; instance := flag_instance w |}) ;;;
      let cmdNames := build_cmdNames (App.Commands (AppConfig uf)) in
      st <- get ;;
      let scan := scan_args cmdNames (drop 1 (os_Args w)) (currentCmd st) in
      modify (set_currentCmd (fst scan)) ;;;
      if snd scan then ret None
      else
        when (bool_decide (size cmdNames = 0)) (modify (set_currentCmd "Action")) ;;;
        st <- get ;;
        if bool_decide (currentCmd st = "") then ret None
        else
          emit (LockAttempt (os_TempDir w) (lock_key (currentCmd st))) ;;;
          let lk := fslock_Lock w (os_TempDir w) (lock_key (currentCmd st)) in
          modify (set_currentCmdLock (fst lk)) ;;;
          match snd lk with
          | Some err => ret (Some err)
          | None =>
              emit (Log InfoLevel ("=== BEGIN '" +:+ currentCmd st +:+ "' run") []) ;;;
              match GlobalInit uf with
              | Some (closer, err) =>
                  emit CallGlobalInit ;;;
                  modify (set_resourcesCloser closer) ;;;
                  ret (WrErr (frame_init w) err)
              | None => ret (WrErr (frame_init w) None)
              end
          end
  end.

(** [(&app).RunContext(ctx, os.Args)], as far as the coordinator sees
    the engine: it may call the hook, returns the hook's error if there
    is one, and otherwise ends as [engine_body] says. *)
Definition RunContext : M Outcome :=
  signal_point SigBeforeHook ;;;
  if engine_calls_Before w then
    err <- Before ;;
    match err with
    | Some e => ret (Returns (Some e))
    | None => signal_point SigDuringBody ;;; ret (engine_body w)
    end
  else signal_point SigDuringBody ;;; ret (engine_body w).

(** The error built by the recover branch of the deferred function. *)
Definition panic_error (pending : option error) (r : string) : error :=
  match pending with
  | None =>
      ErrorString ("panic encountered: " +:+ r +:+ newline +:+ debug_Stack w)
  | Some e =>
      ErrorString ("panic encountered (in addition to error '" +:+ Error e
                   +:+ "'): " +:+ r +:+ newline +:+ debug_Stack w)
  end.

(** The deferred function of [RunAndExit]; [r] is what [recover()]
    returns.  The result is the argument of [os.Exit]. *)
Definition deferred (r : option string) : M Z :=
  match r with
  | Some v => st <- get ;; modify (set_scopeErr (Some (panic_error (scopeErr st) v)))
  | None => ret tt
  end ;;;
  st <- get ;;
  match scopeErr st with
  | Some e =>
      if errors_As_LockedError e && negb (stderr_is_terminal w) then
        shutdown true ;;; ret 1%Z
      else
        emit (Log ErrorLevel (FormatError e) []) ;;;
        emitEndLogs false ;;;
        shutdown false ;;;
        ret 1%Z
  | None =>
      emitEndLogs true ;;;
      shutdown true ;;;
      ret 0%Z
  end.

(** [RunAndExit]: the body up to its last statement, then the deferred
    function.  [scopeErr] is assigned only when [RunContext] returns;
    a panic of the engine reaches [recover()] instead. *)
Definition RunAndExit_body : M Z :=
  out <- RunContext ;;
  r <- match out with
       | Returns err => modify (set_scopeErr err) ;;; ret None
       | Panics v => ret (Some v)
       end ;;
  signal_point SigBeforeEpilogue ;;;
  deferred r.

End Run.

(** What is left of a run: the argument of [os.Exit], the events in
    order, and the closed-over variables at that moment. *)
Record Exit : Type := { code : Z; trace : list Event; final : RunState }.

Definition RunAndExit (uf : UFcli) (w : World) : Exit :=
  let r := RunAndExit_body uf w initial in
  {| code := fst (fst r); trace := snd r; final := snd (fst r) |}.

(** * Derived notions

    What the statements below read off a run: predicates on events,
    the relations used as invariants, the closed forms of the hook, and
    the sample inputs. *)

(** The three components of a computation run from [st]. *)
Abbreviation value m st := (fst (fst (m st))) (only parsing).

Abbreviation state m st := (snd (fst (m st))) (only parsing).

Abbreviation events m st := (snd (m st)) (only parsing).

(** [p] is a prefix of [s]. *)
Fixpoint has_prefix (p s : string) : bool :=
  match p with
  | EmptyString => true
  | String a p' =>
      match s with
      | EmptyString => false
      | String b s' => Ascii.eqb a b && has_prefix p' s'
      end
  end.

(** The three steps of the shutdown sequence. *)
Definition is_step (e : Event) : bool :=
  match e with
  | CallBeforeShutdown | CancelContext | CallResourcesCloser => true
  | _ => false
  end.

Definition is_LockAttempt (e : Event) : bool :=
  match e with LockAttempt _ _ => true | _ => false end.

Definition is_Close (e : Event) : bool :=
  match e with Close _ => true | _ => false end.

Definition is_Push (e : Event) : bool :=
  match e with Push _ _ _ _ _ => true | _ => false end.

Definition is_error_log (e : Event) : bool :=
  match e with Log ErrorLevel _ _ => true | _ => false end.

(** The BEGIN line is the info-level line starting [=== BEGIN '];
    the FINISH line is the info- or warn-level line starting
    [=== FINISH ']. *)
Definition is_BEGIN (e : Event) : bool :=
  match e with
  | Log InfoLevel msg _ => has_prefix "=== BEGIN '" msg
  | _ => false
  end.

Definition is_FINISH (e : Event) : bool :=
  match e with
  | Log InfoLevel msg _ | Log WarnLevel msg _ => has_prefix "=== FINISH '" msg
  | _ => false
  end.

(** Every log line of the sequence is a warning. *)
Definition warning_or_action (e : Event) : bool :=
  match e with
  | Log WarnLevel _ _ => true
  | Log _ _ _ => false
  | _ => true
  end.

Definition not_Close (e : Event) : bool := negb (is_Close e).

(** Events that record an outcome or report an error. *)
Definition not_record (e : Event) : bool :=
  negb (is_FINISH e || is_Push e || is_error_log e).

(** Events that show a lock or a timed run. *)
Definition quiet (e : Event) : bool :=
  negb (is_LockAttempt e || is_BEGIN e || is_FINISH e || is_Push e).

Definition no_outcome (e : Event) : bool := negb (is_FINISH e || is_Push e).

Definition says_success (kv : string * LogArg) : bool :=
  match kv with
  | (k, ArgBool true) => String.eqb k "success"
  | _ => false
  end.

(** An event that reports a successful run: the FINISH line at info
    level or with [success = true], or a push whose success gauge is 1. *)
Definition reports_success (e : Event) : bool :=
  match e with
  | Log InfoLevel msg _ => has_prefix "=== FINISH '" msg
  | Log WarnLevel msg args => has_prefix "=== FINISH '" msg && existsb says_success args
  | Push _ _ _ _ [_; (_, v)] => (v =? 1)%Z
  | _ => false
  end.

Definition no_success (e : Event) : bool := negb (reports_success e).

(** [sub] occurs in [s]. *)
Definition contains (sub s : string) : Prop :=
  exists pre post, s = pre +:+ sub +:+ post.

(** The steps the shutdown sequence takes when it fires in state [st]. *)
Definition steps (uf : UFcli) (st : RunState) : list Event :=
  (match BeforeShutdown uf with Some _ => [CallBeforeShutdown] | None => [] end)
  ++ [CancelContext]
  ++ (match resourcesCloser st with Some _ => [CallResourcesCloser] | None => [] end).

(** Several invocations of [shutdown], one after the other, as the
    once-guard serialises them. *)
Fixpoint shutdown_calls (uf : UFcli) (calls : list bool) : M unit :=
  match calls with
  | [] => ret tt
  | isNormal :: rest => shutdown uf isNormal ;;; shutdown_calls uf rest
  end.

Definition unlocked (st : RunState) : Prop := currentCmdLock st = None.

(** A fresh hook state: no handle, no command yet. *)
Definition fresh (st : RunState) : Prop :=
  currentCmdLock st = None /\ currentCmd st = "".

(** Following the spec's words for the metric names: each name
    sanitised on its own, then joined by an underscore. *)
Definition metric_base_spec (appName commandName : string) : string :=
  promStr appName +:+ "_" +:+ promStr commandName.

(** The FINISH line of a run of [cmd]. *)
Definition FINISH (w : World) (cmd : string) (wasSuccess : bool) : Event :=
  Log (if wasSuccess then InfoLevel else WarnLevel)
      ("=== FINISH '" +:+ cmd +:+ "' run")
      [("success", ArgBool wasSuccess);
       ("took", ArgDuration (Truncate (elapsed w) Millisecond))].

(** A relation [R] between the state before, the state after and the
    events in between holds of every run of [m]. *)
Definition sat (R : RunState -> RunState -> list Event -> Prop)
    {A} (m : M A) : Prop :=
  forall st, R st (snd (fst (m st))) (snd (m st)).

(** [inv_rel I ok]: from a state in [I] the run stays in [I] and emits
    only events accepted by [ok]. *)
Definition inv_rel (I : RunState -> Prop) (ok : Event -> bool)
    (st st' : RunState) (tr : list Event) : Prop :=
  I st -> I st' /\ forallb ok tr = true.

(** [keep_rel f]: the run does not change [f] of the state. *)
Definition keep_rel {A} (f : RunState -> A)
    (st st' : RunState) (tr : list Event) : Prop :=
  f st' = f st.

Section Derived.

Variable uf : UFcli.
Variable w : World.

(** From a state where the guard has fired nothing more happens; from a
    fresh state either nothing has happened yet or the three steps have
    been taken once, in order. *)
Definition once_rel (st st' : RunState) (tr : list Event) : Prop :=
  if once_done st
  then once_done st' = true /\ List.filter is_step tr = []
  else (once_done st' = false /\ List.filter is_step tr = [])
       \/ (once_done st' = true
           /\ exists closer_ran : bool,
                List.filter is_step tr =
                (match BeforeShutdown uf with Some _ => [CallBeforeShutdown] | None => [] end)
                ++ [CancelContext]
                ++ (if closer_ran then [CallResourcesCloser] else [])).

(** What the engine hands back to [RunAndExit]. *)
Definition run_outcome : Outcome := value (RunContext uf w) initial.

(** The state in which the deferred function starts. *)
Definition epilogue_state : RunState :=
  let s1 := state (RunContext uf w) initial in
  let s2 := match run_outcome with
            | Returns err => set_scopeErr err s1
            | Panics _ => s1
            end in
  state (signal_point uf w SigBeforeEpilogue) s2.

Definition recovered : option string :=
  match run_outcome with Returns _ => None | Panics v => Some v end.

(** The command the hook settles on from a fresh [currentCmd];
    [None] when it returns before locking (help flag seen, or nothing
    resolved). *)
Definition resolved : option string :=
  let cmdNames := build_cmdNames (App.Commands (AppConfig uf)) in
  let scan := scan_args cmdNames (drop 1 (os_Args w)) "" in
  if snd scan then None
  else if bool_decide (size cmdNames = 0) then Some "Action"
  else if bool_decide (fst scan = "") then None
  else Some (fst scan).

(** The error the hook returns from a fresh [currentCmd]. *)
Definition hook_error : option error :=
  match toml_load w with
  | Some err => Some (cmnErr err (frame_toml w))
  | None =>
      match resolved with
      | None => None
      | Some cmd =>
          match snd (fslock_Lock w (os_TempDir w) (lock_key uf cmd)) with
          | Some e => Some e
          | None =>
              match GlobalInit uf with
              | Some (_, err) => WrErr (frame_init w) err
              | None => None
              end
          end
      end
  end.

(** The events of the hook from a fresh [currentCmd]. *)
Definition hook_events : list Event :=
  LoadConfig (TOMLPath uf) ::
  match toml_load w with
  | Some _ => []
  | None =>
      match resolved with
      | None => []
      | Some cmd =>
          LockAttempt (os_TempDir w) (lock_key uf cmd) ::
          match snd (fslock_Lock w (os_TempDir w) (lock_key uf cmd)) with
          | Some _ => []
          | None =>
              Log InfoLevel ("=== BEGIN '" +:+ cmd +:+ "' run") [] ::
              match GlobalInit uf with
              | Some _ => [CallGlobalInit]
              | None => []
              end
          end
      end
  end.

(** The handle the hook stores, from a fresh state. *)
Definition hook_handle : option Closer :=
  match toml_load w with
  | Some _ => None
  | None =>
      match resolved with
      | None => None
      | Some cmd => fst (fslock_Lock w (os_TempDir w) (lock_key uf cmd))
      end
  end.

(** The run ends on the silent path of the deferred function. *)
Definition silent_exit : bool :=
  match run_outcome with
  | Returns (Some e) => errors_As_LockedError e && negb (stderr_is_terminal w)
  | _ => false
  end.

End Derived.

(** [uf'] is [uf] up to the pre-shutdown callback and the resource
    closer handed out by [GlobalInit]. *)
Definition same_but_cleanup (uf uf' : UFcli) : Prop :=
  AppConfig uf' = AppConfig uf
  /\ TOMLPath uf' = TOMLPath uf
  /\ option_map snd (GlobalInit uf') = option_map snd (GlobalInit uf).

(** [w] with another answer of the metrics push. *)
Definition with_push_result (r : option string) (w : World) : World :=
  {| os_Args := os_Args w; os_TempDir := os_TempDir w; toml_load := toml_load w;
     flag_url := flag_url w; flag_user := flag_user w; flag_pass := flag_pass w;
     flag_instance := flag_instance w; fslock_Lock := fslock_Lock w;
     stderr_is_terminal := stderr_is_terminal w; elapsed := elapsed w;
     push_result := r; debug_Stack := debug_Stack w;
     frame_toml := frame_toml w; frame_init := frame_init w;
     engine_calls_Before := engine_calls_Before w; engine_body := engine_body w;
     signal := signal w |}.

(** ** Sample inputs *)

Definition with_name (name : string) : UFcli :=
  {| AppConfig := {| App.Name := name; App.Commands := [] |};
     TOMLPath := ""; GlobalInit := None; BeforeShutdown := None |}.

(** A sample application with one command, and a world in which the
    lock is free, the command succeeds after 1500.9 ms and no signal
    arrives. *)
Definition sync_app : UFcli :=
  {| AppConfig :=
       {| App.Name := "app";
          App.Commands := [ {| Command.Name := "sync"; Command.Aliases := ["s"] |};
                            {| Command.Name := "help"; Command.Aliases := ["h"] |} ] |};
     TOMLPath := "app.toml";
     GlobalInit := Some (Some None, None);
     BeforeShutdown := Some None |}.

Definition sync_world : World :=
  {| os_Args := ["app"; "sync"];
     os_TempDir := "/tmp";
     toml_load := None;
     flag_url := ""; flag_user := ""; flag_pass := ""; flag_instance := "";
     fslock_Lock := fun dir key => (Some (LockHandle (dir +:+ "/" +:+ key)), None);
     stderr_is_terminal := false;
     elapsed := 1500900000;
     push_result := None;
     debug_Stack := "goroutine 1 [running]";
     frame_toml := ""; frame_init := "";
     engine_calls_Before := true;
     engine_body := Returns None;
     signal := SigNever |}.

(** The application [app] with its [sync] command, called with an
    argument that names no command. *)
Definition bogus_world : World :=
  {| os_Args := ["app"; "bogus"];
     os_TempDir := "/tmp";
     toml_load := None;
     flag_url := ""; flag_user := ""; flag_pass := ""; flag_instance := "";
     fslock_Lock := fun dir key => (Some (LockHandle (dir +:+ "/" +:+ key)), None);
     stderr_is_terminal := true;
     elapsed := 1500900000;
     push_result := None;
     debug_Stack := "";
     frame_toml := ""; frame_init := "";
     engine_calls_Before := true;
     engine_body := Returns (Some (ErrorString "No help topic for 'bogus'"));
     signal := SigNever |}.

(** [app sync], with the lock of [app-sync] held by another process. *)
Definition held_world : World :=
  {| os_Args := ["app"; "sync"];
     os_TempDir := "/tmp";
     toml_load := None;
     flag_url := ""; flag_user := ""; flag_pass := ""; flag_instance := "";
     fslock_Lock := fun dir key =>
       (None, Some (PathError "lock" (dir +:+ "/" +:+ key)
                      (LockedError "someone else has the lock")));
     stderr_is_terminal := false;
     elapsed := 2000000;
     push_result := None;
     debug_Stack := "";
     frame_toml := ""; frame_init := "";
     engine_calls_Before := true;
     engine_body := Returns None;
     signal := SigNever |}.

(** [app sync], the command panicking while a signal arrives. *)
Definition panic_world : World :=
  {| os_Args := ["app"; "sync"];
     os_TempDir := "/tmp";
     toml_load := None;
     flag_url := "http://push.example"; flag_user := "u"; flag_pass := "p";
     flag_instance := "host-1";
     fslock_Lock := fun dir key => (Some (LockHandle (dir +:+ "/" +:+ key)), None);
     stderr_is_terminal := false;
     elapsed := 2000000;
     push_result := Some "connection refused";
     debug_Stack := "goroutine 1 [running]";
     frame_toml := ""; frame_init := "";
     engine_calls_Before := true;
     engine_body := Panics "index out of range";
     signal := SigDuringBody |}.

(** [app --help sync] and [app sync -h x]. *)
Definition help_first_world : World :=
  {| os_Args := ["app"; "--help"; "sync"];
     os_TempDir := "/tmp";
     toml_load := None;
     flag_url := ""; flag_user := ""; flag_pass := ""; flag_instance := "";
     fslock_Lock := fun dir key => (Some (LockHandle (dir +:+ "/" +:+ key)), None);
     stderr_is_terminal := true;
     elapsed := 2000000;
     push_result := None;
     debug_Stack := "";
     frame_toml := ""; frame_init := "";
     engine_calls_Before := true;
     engine_body := Returns None;
     signal := SigNever |}.

Definition help_later_world : World :=
  {| os_Args := ["app"; "sync"; "-h"; "x"];
     os_TempDir := "/tmp";
     toml_load := None;
     flag_url := ""; flag_user := ""; flag_pass := ""; flag_instance := "";
     fslock_Lock := fun dir key => (Some (LockHandle (dir +:+ "/" +:+ key)), None);
     stderr_is_terminal := true;
     elapsed := 2000000;
     push_result := None;
     debug_Stack := "";
     frame_toml := ""; frame_init := "";
     engine_calls_Before := true;
     engine_body := Returns None;
     signal := SigNever |}.

(** A state in which the lock of [sync] is held. *)
Definition locked_state : RunState :=
  set_currentCmdLock (Some (LockHandle "/tmp/app-sync")) (set_currentCmd "sync" initial).

(** * The rest of the toolbox *)

(** ** [cmn.SortedMapKeys] *)

(** A map key as [reflect] hands it out.  [k.String()] is the content
    of a key whose kind is string; for a key of any other type [T] it
    does not panic but yields ["<T Value>"]. *)
Inductive MapKey : Type :=
| StringKey (s : string)
| OtherKey (typ : string).

Definition Value_String (k : MapKey) : string :=
  match k with
  | StringKey s => s
  | OtherKey typ => "<" +:+ typ +:+ " Value>"
  end.

(** [reflect.ValueOf(m)]: a map, with its keys in the order in which
    [v.MapKeys()] returns them (Go leaves that order unspecified), or a
    value of another kind, with its [%v] rendering. *)
Inductive Value : Type :=
| MapValue (MapKeys : list MapKey)
| NotMap (printed : string).

(** The order of [sort.Strings]: Go compares strings byte by byte. *)
Definition string_le (a b : string) : Prop := String.leb a b = true.

#[global] Instance string_le_dec (a b : string) : Decision (string_le a b) :=
  bool_eq_dec (String.leb a b) true.

(** [sort.Strings], by its contract: the sorted rearrangement of the
    slice (unique, the order being total and antisymmetric). *)
Definition sort_Strings (l : list string) : list string := merge_sort string_le l.

(** [func SortedMapKeys(m interface{}) []string]; [inl] is the value
    it panics with. *)
Definition SortedMapKeys (m : Value) : string + list string :=
  match m with
  | NotMap printed => inl ("input type not a map: " +:+ printed)
  | MapValue keys =>
      let avail := foldl (fun avail k => avail ++ [Value_String k]) [] keys in
      inr (sort_Strings avail)
  end.

(** The keys of a Go map with string keys, as [reflect] may list them. *)
Definition keys_in_order {V} (m : gmap string V) (order : list string) : Prop :=
  order ≡ₚ elements (dom m).

(** ** [cmn.WrErr] along a call chain *)

(** An error handed up through several [cmn.WrErr] call sites, the
    innermost frame first. *)
Definition WrErr_chain (frames : list string) (err : option error) : option error :=
  foldl (fun err frame => WrErr frame err) err frames.

(** [errors.Unwrap], [n] times. *)
Fixpoint Unwrap_n (n : nat) (e : error) : option error :=
  match n with
  | O => Some e
  | S n' =>
      match Unwrap e with
      | Some inner => Unwrap_n n' inner
      | None => None
      end
  end.

Definition concat_frames (frames : list string) : string :=
  foldr String.append "" frames.

(** ** More ways to read a trace *)

Definition is_LoadConfig (e : Event) : bool :=
  match e with LoadConfig _ => true | _ => false end.

Definition is_GlobalInit (e : Event) : bool :=
  match e with CallGlobalInit => true | _ => false end.

Definition is_closer (e : Event) : bool :=
  match e with CallResourcesCloser => true | _ => false end.

Definition is_Sleep (e : Event) : bool :=
  match e with Sleep250ms => true | _ => false end.

(** The events of the hook. *)
Definition is_hook_event (e : Event) : bool :=
  is_LoadConfig e || is_LockAttempt e || is_BEGIN e || is_GlobalInit e.

(** The events of the signal watcher and of the shutdown sequence. *)
Definition is_cleanup (e : Event) : bool :=
  match e with
  | CallBeforeShutdown | CancelContext | CallResourcesCloser | Sleep250ms => true
  | Log WarnLevel msg [] =>
      has_prefix "error encountered during " msg
      || has_prefix "termination signal received" msg
  | _ => false
  end.

(** A push that names its job, its grouping label and its gauges with
    alphanumerics and underscores only, to a target that is not empty. *)
Definition only_word_bytes (s : string) : bool :=
  forallb (fun c => is_alnum c || Ascii.eqb c "_") (list_ascii_of_string s).

Definition push_ok (e : Event) : bool :=
  match e with
  | Push target job grouping _ gauges =>
      negb (String.eqb target "")
      && clean_token job
      && match grouping with Some g => clean_token g | None => true end
      && forallb (fun g => only_word_bytes (fst g)) gauges
  | _ => true
  end.

(** The resource closer the hook stores, from a fresh state. *)
Definition hook_closer (uf : UFcli) (w : World) : option (option error) :=
  match toml_load w, resolved uf w with
  | None, Some cmd =>
      match snd (fslock_Lock w (os_TempDir w) (lock_key uf cmd)), GlobalInit uf with
      | None, Some (closer, _) => closer
      | _, _ => None
      end
  | _, _ => None
  end.

(** The closer in [resourcesCloser] when the deferred function starts. *)
Definition stored_closer (uf : UFcli) (w : World) : option (option error) :=
  if engine_calls_Before w then hook_closer uf w else None.

(** An event other than the call of the resource closer. *)
Definition no_closer (e : Event) : bool := negb (is_closer e).

(** ** More sample inputs *)

(** [app -v s x]: the alias [s] of [sync] after a flag. *)
Definition alias_world : World :=
  {| os_Args := ["app"; "-v"; "s"; "x"];
     os_TempDir := "/tmp";
     toml_load := None;
     flag_url := ""; flag_user := ""; flag_pass := ""; flag_instance := "";
     fslock_Lock := fun dir key => (Some (LockHandle (dir +:+ "/" +:+ key)), None);
     stderr_is_terminal := true;
     elapsed := 2000000;
     push_result := None;
     debug_Stack := "";
     frame_toml := ""; frame_init := "";
     engine_calls_Before := true;
     engine_body := Returns None;
     signal := SigNever |}.

(** [app sync], a signal arriving before the hook runs. *)
Definition early_signal_world : World :=
  {| os_Args := ["app"; "sync"];
     os_TempDir := "/tmp";
     toml_load := None;
     flag_url := ""; flag_user := ""; flag_pass := ""; flag_instance := "";
     fslock_Lock := fun dir key => (Some (LockHandle (dir +:+ "/" +:+ key)), None);
     stderr_is_terminal := true;
     elapsed := 2000000;
     push_result := None;
     debug_Stack := "";
     frame_toml := ""; frame_init := "";
     engine_calls_Before := true;
     engine_body := Returns None;
     signal := SigBeforeHook |}.

(** [app sync], the configuration file missing. *)
Definition config_world : World :=
  {| os_Args := ["app"; "sync"];
     os_TempDir := "/tmp";
     toml_load := Some (ErrorString "open app.toml: no such file or directory");
     flag_url := ""; flag_user := ""; flag_pass := ""; flag_instance := "";
     fslock_Lock := fun dir key => (Some (LockHandle (dir +:+ "/" +:+ key)), None);
     stderr_is_terminal := false;
     elapsed := 2000000;
     push_result := None;
     debug_Stack := "";
     frame_toml := " (ufcli.go:214)"; frame_init := "";
     engine_calls_Before := true;
     engine_body := Returns None;
     signal := SigNever |}.

(** [sync_app] with a [GlobalInit] that fails on a lock of its own. *)
Definition init_locked_app : UFcli :=
  {| AppConfig := AppConfig sync_app;
     TOMLPath := "app.toml";
     GlobalInit :=
       Some (None, Some (PathError "lock" "/var/db.lock"
                           (LockedError "someone else has the lock")));
     BeforeShutdown := None |}.

(** A Go map with two string keys. *)
Definition sample_map : gmap string nat := <["beta" := 2]> (<["alpha" := 1]> ∅).

(** [sync_world] with a push gateway configured. *)
Definition push_world : World :=
  {| os_Args := ["app"; "sync"];
     os_TempDir := "/tmp";
     toml_load := None;
     flag_url := "http://gateway:9091"; flag_user := "u"; flag_pass := "p";
     flag_instance := "host-1";
     fslock_Lock := fun dir key => (Some (LockHandle (dir +:+ "/" +:+ key)), None);
     stderr_is_terminal := false;
     elapsed := 1500900000;
     push_result := None;
     debug_Stack := "";
     frame_toml := ""; frame_init := "";
     engine_calls_Before := true;
     engine_body := Returns None;
     signal := SigNever |}.

(** * Proofs *)

(** ** Properties of the sanitiser *)

Section SanitizeFacts.

Lemma is_alnum_underscore : is_alnum "_" = false.
Proof. reflexivity. Qed.

Lemma is_alnum_hyphen : is_alnum "-" = false.
Proof. reflexivity. Qed.

(** The output of the scan is a clean token; after a replaced run it
    does not start with an underscore. *)
Lemma replace_runs_clean (s : string) :
  forall in_run prev_us : bool,
    (prev_us = true -> in_run = true) ->
    clean_from prev_us (replace_runs in_run s) = true.
Proof.
  induction s as [|c rest IH]; intros in_run prev_us Himp; [reflexivity|].
  cbn [replace_runs]. destruct (is_alnum c) eqn:Hc.
  - cbn [clean_from]. rewrite Hc. apply IH. discriminate.
  - destruct in_run.
    + apply IH. reflexivity.
    + destruct prev_us; [specialize (Himp eq_refl); discriminate|].
      cbn [clean_from]. rewrite is_alnum_underscore. cbn.
      apply IH. reflexivity.
Qed.

Lemma promStr_clean (s : string) : clean_token (promStr s) = true.
Proof. apply replace_runs_clean. discriminate. Qed.

(** Inside a run the scan only skips: it resumes where the greedy match
    ends. *)
Lemma replace_runs_skip (s : string) :
  replace_runs true s = replace_runs false (skip_run s).
Proof.
  induction s as [|c rest IH]; [reflexivity|].
  cbn [replace_runs skip_run]. destruct (is_alnum c) eqn:Hc.
  - cbn [replace_runs]. rewrite Hc. reflexivity.
  - exact IH.
Qed.

(** The scan, one match at a time. *)
Lemma promStr_step (c : ascii) (s : string) :
  promStr (String c s) =
  if is_alnum c then String c (promStr s)
  else String "_" (promStr (skip_run s)).
Proof.
  unfold promStr. cbn [replace_runs]. destruct (is_alnum c); [reflexivity|].
  f_equal. apply replace_runs_skip.
Qed.

(** What a clean token is, byte by byte. *)
Lemma clean_from_chars (s : string) :
  forall prev_us, clean_from prev_us s = true ->
    forall c, In c (list_ascii_of_string s) -> is_alnum c = true \/ c = "_"%char.
Proof.
  induction s as [|a rest IH]; intros prev_us Hclean c Hin; [destruct Hin|].
  cbn [clean_from] in Hclean. cbn [list_ascii_of_string] in Hin.
  destruct (is_alnum a) eqn:Ha.
  - destruct Hin as [<-|Hin]; [left; exact Ha | eapply IH; eauto].
  - destruct (Ascii.eqb a "_") eqn:Hu; [|discriminate].
    apply andb_prop in Hclean as [_ Hrest].
    destruct Hin as [<-|Hin]; [right; apply Ascii.eqb_eq; exact Hu | eapply IH; eauto].
Qed.

Lemma clean_from_no_double (s : string) :
  forall prev_us, clean_from prev_us s = true ->
    forall i, ~ (String.get i s = Some "_"%char /\ String.get (S i) s = Some "_"%char).
Proof.
  induction s as [|a rest IH]; intros prev_us Hclean i [H1 H2]; [discriminate|].
  cbn [clean_from] in Hclean.
  destruct i as [|i].
  - cbn in H1. injection H1 as ->. rewrite is_alnum_underscore in Hclean.
    cbn in Hclean. apply andb_prop in Hclean as [_ Hrest].
    destruct rest as [|b rest']; [discriminate|].
    cbn in H2. injection H2 as ->. cbn in Hrest. discriminate.
  - cbn in H1, H2. destruct (is_alnum a).
    + eapply IH; eauto.
    + destruct (Ascii.eqb a "_"); [|discriminate].
      apply andb_prop in Hclean as [_ Hrest]. eapply IH; eauto.
Qed.

(** Sanitising a concatenation: the second part is scanned from the
    state the first part ends in. *)
Lemma replace_runs_app (a b : string) :
  forall in_run,
    replace_runs in_run (a +:+ b) =
    replace_runs in_run a +:+ replace_runs (ends_in_run in_run a) b.
Proof.
  induction a as [|c rest IH]; intros in_run; [reflexivity|].
  cbn [String.append replace_runs ends_in_run].
  destruct (is_alnum c) eqn:Hc; cbn [negb].
  - rewrite IH. reflexivity.
  - destruct in_run; rewrite IH; reflexivity.
Qed.

Lemma replace_runs_start (b : string) :
  starts_in_run b = false -> replace_runs true b = replace_runs false b.
Proof.
  destruct b as [|c rest]; [reflexivity|].
  cbn [starts_in_run replace_runs]. destruct (is_alnum c); [reflexivity|discriminate].
Qed.

(** When [a] does not end and [b] does not start with a separator,
    sanitising [a_b] is joining the sanitised parts. *)
Lemma promStr_join (a b : string) :
  ends_in_run false a = false -> starts_in_run b = false ->
  promStr (a +:+ "_" +:+ b) = promStr a +:+ "_" +:+ promStr b.
Proof.
  intros Ha Hb. unfold promStr. rewrite replace_runs_app, Ha.
  cbn [String.append replace_runs]. rewrite is_alnum_underscore.
  rewrite (replace_runs_start b Hb). reflexivity.
Qed.

End SanitizeFacts.

(** ** Lock token and metric names *)

(** C6, counterexample: for the application [app] and the command
    [sync] the lock token is [app-sync]; its hyphen is neither
    alphanumeric nor an underscore. *)
Lemma lock_key_hyphen :
  lock_key (with_name "app") "sync" = "app-sync"
  /\ clean_token (lock_key (with_name "app") "sync") = false
  /\ In "-"%char (list_ascii_of_string (lock_key (with_name "app") "sync"))
  /\ is_alnum "-" = false /\ "-"%char <> "_"%char.
Proof. vm_compute. repeat split; auto. discriminate. Qed.

(** C6, amended: every output of [promStr] consists of alphanumerics
    and underscores only, with no two underscores in a row, each maximal
    run of other bytes having become one underscore; the metric token is
    such an output; the lock token is two such outputs joined by one
    hyphen; and [promStr "my-app v2!!" = "my_app_v2_"]. *)
Theorem sanitized_tokens (uf : UFcli) (st : RunState) (cmd s : string) :
  clean_token (promStr s) = true
  /\ Forall (fun c => is_alnum c = true \/ c = "_"%char)
            (list_ascii_of_string (promStr s))
  /\ (forall i, ~ (String.get i (promStr s) = Some "_"%char
                   /\ String.get (S i) (promStr s) = Some "_"%char))
  /\ (forall c rest,
        promStr (String c rest) =
        if is_alnum c then String c (promStr rest)
        else String "_" (promStr (skip_run rest)))
  /\ clean_token (cmdFqName uf st) = true
  /\ (exists a b, lock_key uf cmd = a +:+ "-" +:+ b
                  /\ a = promStr (App.Name (AppConfig uf)) /\ b = promStr cmd
                  /\ clean_token a = true /\ clean_token b = true)
  /\ promStr "my-app v2!!" = "my_app_v2_".
Proof.
  split; [apply promStr_clean|].
  split.
  { apply List.Forall_forall. intros c Hc.
    apply (clean_from_chars _ false (promStr_clean s) c Hc). }
  split; [apply (clean_from_no_double _ false (promStr_clean s))|].
  split; [apply promStr_step|].
  split; [apply promStr_clean|].
  split; [|reflexivity].
  exists (promStr (App.Name (AppConfig uf))), (promStr cmd).
  repeat split; apply promStr_clean.
Qed.

(** C7, counterexample: for the application name [my-app v2!!] and the
    command [sync] the code names the gauges [my_app_v2_sync_...],
    joining the sanitised names gives [my_app_v2__sync_...]. *)
Lemma metric_name_not_joined :
  let st := set_currentCmd "sync" initial in
  fst (tookGauge (with_name "my-app v2!!") st 0) = "my_app_v2_sync_run_time"
  /\ metric_base_spec "my-app v2!!" "sync" +:+ "_run_time" = "my_app_v2__sync_run_time"
  /\ fst (tookGauge (with_name "my-app v2!!") st 0)
     <> metric_base_spec "my-app v2!!" "sync" +:+ "_run_time"
  /\ fst (successGauge (with_name "my-app v2!!") st true)
     <> metric_base_spec "my-app v2!!" "sync" +:+ "_success".
Proof. vm_compute. repeat split; discriminate. Qed.

Lemma Truncate_Millisecond (d : Z) :
  (0 <= d)%Z ->
  Truncate d Millisecond = (1000000 * (d / 1000000))%Z
  /\ Milliseconds (Truncate d Millisecond) = (d / 1000000)%Z.
Proof.
  intros Hd. unfold Truncate, Milliseconds, Millisecond. cbn [Z.leb Z.compare].
  rewrite Z.rem_mod_nonneg by lia.
  assert (H : (d - d mod 1000000 = 1000000 * (d / 1000000))%Z).
  { pose proof (Z.div_mod d 1000000). lia. }
  rewrite H. split; [reflexivity|].
  rewrite Z.quot_div_nonneg.
  - rewrite Z.mul_comm. apply Z.div_mul. lia.
  - apply Z.mul_nonneg_nonneg; [lia|]. apply Z.div_pos; lia.
  - lia.
Qed.

(** C7, amended: once a lock is held, the recorder logs the FINISH line
    (info level on success, warn level on failure) with the duration
    truncated to the millisecond, and names its two gauges
    [promStr (appName ++ "_" ++ commandName)] suffixed [_run_time] and
    [_success]: the concatenation is sanitised as a whole, which is the
    join of the sanitised names whenever the application name does not
    end and the command name does not start with a separator.  The
    gauges hold the whole milliseconds of the duration and 1 or 0, and
    are what a configured push delivers. *)
Theorem emitEndLogs_record (uf : UFcli) (w : World) (st : RunState)
    (wasSuccess : bool) (h : Closer) :
  currentCmdLock st = Some h ->
  let took := Truncate (elapsed w) Millisecond in
  let base := promStr (App.Name (AppConfig uf) +:+ "_" +:+ currentCmd st) in
  let gauges := [(base +:+ "_run_time", Milliseconds took);
                 (base +:+ "_success", if wasSuccess then 1%Z else 0%Z)] in
  (exists rest,
     snd (emitEndLogs uf w wasSuccess st) =
       Log (if wasSuccess then InfoLevel else WarnLevel)
           ("=== FINISH '" +:+ currentCmd st +:+ "' run")
           [("success", ArgBool wasSuccess); ("took", ArgDuration took)] :: rest
     /\ (url (promPushConf st) = "" -> rest = [])
     /\ (url (promPushConf st) <> "" ->
         exists grouping auth tail,
           rest = Push (url (promPushConf st)) (promStr (currentCmd st))
                       grouping auth gauges :: tail))
  /\ [tookGauge uf st took; successGauge uf st wasSuccess] = gauges
  /\ ((0 <= elapsed w)%Z ->
      took = (1000000 * (elapsed w / 1000000))%Z
      /\ Milliseconds took = (elapsed w / 1000000)%Z)
  /\ ((1500000000 <= elapsed w < 1501000000)%Z -> Milliseconds took = 1500%Z)
  /\ (ends_in_run false (App.Name (AppConfig uf)) = false ->
      starts_in_run (currentCmd st) = false ->
      base = metric_base_spec (App.Name (AppConfig uf)) (currentCmd st)).
Proof.
  intros Hlock took base gauges.
  split.
  { unfold emitEndLogs, bind, get, emit, ret. cbn [fst snd]. rewrite Hlock.
    cbn [fst snd app].
    destruct (bool_decide (url (promPushConf st) = "")) eqn:Hurl.
    - eexists. split; [reflexivity|]. split; [reflexivity|].
      apply bool_decide_eq_true in Hurl. intros Hne. contradiction.
    - eexists. split; [reflexivity|]. apply bool_decide_eq_false in Hurl.
      split; [intros He; contradiction|]. intros _. cbn [fst snd app].
      eexists _, _, _. reflexivity. }
  split; [reflexivity|].
  split; [intros Hd; apply Truncate_Millisecond; exact Hd|].
  split.
  { intros Hd. subst took.
    destruct (Truncate_Millisecond (elapsed w)) as [_ ->]; [lia|].
    symmetry. apply Z.div_unique with (r := (elapsed w - 1500000000)%Z); lia. }
  intros Ha Hb. apply promStr_join; assumption.
Qed.

Lemma emitEndLogs_record_witness :
  currentCmdLock locked_state = Some (LockHandle "/tmp/app-sync")
  /\ Milliseconds (Truncate (elapsed sync_world) Millisecond) = 1500%Z
  /\ promStr (App.Name (AppConfig sync_app) +:+ "_" +:+ currentCmd locked_state)
     = metric_base_spec "app" "sync".
Proof.
  split; [reflexivity|].
  pose proof (emitEndLogs_record sync_app sync_world locked_state true
                (LockHandle "/tmp/app-sync") eq_refl) as H.
  cbv zeta in H. destruct H as (_ & _ & _ & Hms & Hjoin).
  split.
  - apply Hms. cbn [elapsed sync_world]. lia.
  - apply Hjoin; reflexivity.
Defined.

(** ** Reasoning about the closures *)

Lemma value_bind {A B} (m : M A) (k : A -> M B) st :
  value (bind m k) st = value (k (value m st)) (state m st).
Proof. reflexivity. Qed.

Lemma state_bind {A B} (m : M A) (k : A -> M B) st :
  state (bind m k) st = state (k (value m st)) (state m st).
Proof. reflexivity. Qed.

Lemma events_bind {A B} (m : M A) (k : A -> M B) st :
  events (bind m k) st = events m st ++ events (k (value m st)) (state m st).
Proof. reflexivity. Qed.

(** Symbolic execution of a closure, one [bind] at a time. *)
Ltac mrun :=
  repeat (rewrite ?value_bind, ?state_bind, ?events_bind;
          cbn beta iota zeta delta
            [emit get modify ret when fst snd app
             set_once_done set_resourcesCloser set_scopeErr set_currentCmd
             set_currentCmdLock set_promPushConf
             once_done resourcesCloser scopeErr currentCmd currentCmdLock
             promPushConf]).

Ltac fin :=
  repeat split; try reflexivity; try (intros; discriminate);
  try (intros ?; assumption); try (intros ? _ [= <-]; reflexivity).

(** A relation between the state before, the state after and the events
    in between that composes along a run. *)
Section Rel.

Variable R : RunState -> RunState -> list Event -> Prop.
Hypothesis R_refl : forall st, R st st [].
Hypothesis R_trans :
  forall s1 s2 s3 t1 t2, R s1 s2 t1 -> R s2 s3 t2 -> R s1 s3 (t1 ++ t2).

Lemma sat_ret {A} (a : A) : sat R (ret a).
Proof. intros st. apply R_refl. Qed.

Lemma sat_get : sat R get.
Proof. intros st. apply R_refl. Qed.

Lemma sat_bind {A B} (m : M A) (k : A -> M B) :
  sat R m -> (forall a, sat R (k a)) -> sat R (bind m k).
Proof.
  intros Hm Hk st. rewrite state_bind, events_bind.
  eapply R_trans; [apply Hm | apply Hk].
Qed.

Lemma sat_when (b : bool) (m : M unit) : sat R m -> sat R (when b m).
Proof. intros Hm. destruct b; [exact Hm | apply sat_ret]. Qed.

End Rel.

(** Structural steps of a [sat] proof for a relation with the proofs
    [refl] and [trans]; the leaves ([emit], [modify] and the closures
    already treated) are left to [leaf]. *)
Ltac sat_step refl trans leaf :=
  match goal with
  | |- sat _ (bind _ _) => apply sat_bind; [apply trans | | intros ?]
  | |- sat _ (ret _) => apply sat_ret; apply refl
  | |- sat _ get => apply sat_get; apply refl
  | |- sat _ (when _ _) => apply sat_when; [apply refl|]
  | |- sat _ (match ?x with _ => _ end) => destruct x
  | |- sat _ (let _ := _ in _) => cbv zeta
  | |- sat _ _ => leaf
  end.

Ltac sat_auto refl trans leaf := repeat (sat_step refl trans leaf).

Section ShutdownFacts.

Variable uf : UFcli.
Variable w : World.

(** The body of the sequence leaves the variables alone. *)
Lemma shutdown_body_state (isNormal : bool) (st : RunState) :
  state (shutdown_body uf isNormal) st = st.
Proof.
  unfold shutdown_body, bind, emit, get, ret, when.
  destruct (BeforeShutdown uf) as [[?|]|]; cbn [fst snd];
    destruct (resourcesCloser st) as [[?|]|]; destruct isNormal; reflexivity.
Qed.

Lemma shutdown_body_steps (isNormal : bool) (st : RunState) :
  List.filter is_step (events (shutdown_body uf isNormal) st) = steps uf st.
Proof.
  unfold shutdown_body, steps, bind, emit, get, ret, when.
  destruct (BeforeShutdown uf) as [[?|]|]; cbn [fst snd];
    destruct (resourcesCloser st) as [[?|]|]; destruct isNormal; reflexivity.
Qed.

Lemma shutdown_state (isNormal : bool) (st : RunState) :
  state (shutdown uf isNormal) st =
  if once_done st then st else set_once_done true st.
Proof.
  unfold shutdown, Do. destruct (once_done st); [reflexivity|].
  cbn [fst snd]. f_equal. apply shutdown_body_state.
Qed.

Lemma shutdown_events (isNormal : bool) (st : RunState) :
  events (shutdown uf isNormal) st =
  if once_done st then [] else events (shutdown_body uf isNormal) st.
Proof. unfold shutdown, Do. destruct (once_done st); reflexivity. Qed.

Lemma shutdown_sets_done (isNormal : bool) (st : RunState) :
  once_done (state (shutdown uf isNormal) st) = true.
Proof. rewrite shutdown_state. destruct (once_done st) eqn:H; [exact H|reflexivity]. Qed.

Lemma shutdown_calls_done (calls : list bool) (st : RunState) :
  once_done st = true ->
  state (shutdown_calls uf calls) st = st /\ events (shutdown_calls uf calls) st = [].
Proof.
  revert st. induction calls as [|b rest IH]; intros st H; [split; reflexivity|].
  cbn [shutdown_calls]. rewrite state_bind, events_bind.
  rewrite shutdown_state, shutdown_events, H. cbn [app]. apply IH. exact H.
Qed.

Lemma shutdown_body_warnings (isNormal : bool) (st : RunState) :
  forallb warning_or_action (events (shutdown_body uf isNormal) st) = true.
Proof.
  unfold shutdown_body, bind, emit, get, ret, when.
  destruct (BeforeShutdown uf) as [[?|]|]; cbn [fst snd];
    destruct (resourcesCloser st) as [[?|]|]; destruct isNormal; reflexivity.
Qed.

(** *** The once-guard along a run *)

Lemma once_rel_refl st : once_rel uf st st [].
Proof.
  unfold once_rel. destruct (once_done st); [split; reflexivity|].
  left. split; reflexivity.
Qed.

Lemma once_rel_trans s1 s2 s3 t1 t2 :
  (once_rel uf) s1 s2 t1 -> (once_rel uf) s2 s3 t2 -> (once_rel uf) s1 s3 (t1 ++ t2).
Proof.
  unfold once_rel. rewrite List.filter_app.
  destruct (once_done s1).
  - intros [-> ->] [? ->]. split; [assumption|reflexivity].
  - intros [[-> ->]|[-> [c ->]]].
    + cbn [app]. trivial.
    + intros [? ->]. right. split; [assumption|]. exists c.
      rewrite List.app_nil_r. reflexivity.
Qed.

Lemma once_emit (e : Event) : is_step e = false -> sat (once_rel uf) (emit e).
Proof.
  intros He st. unfold once_rel, emit. cbn [fst snd List.filter].
  rewrite He. destruct (once_done st); [split; reflexivity|].
  left. split; reflexivity.
Qed.

Lemma once_modify (f : RunState -> RunState) :
  (forall st, once_done (f st) = once_done st) -> sat (once_rel uf) (modify f).
Proof.
  intros Hf st. unfold once_rel, modify. cbn [fst snd List.filter].
  rewrite Hf. destruct (once_done st) eqn:H; [split; reflexivity|].
  left. split; reflexivity.
Qed.

Lemma once_shutdown (isNormal : bool) : sat (once_rel uf) (shutdown uf isNormal).
Proof.
  intros st. unfold once_rel. rewrite shutdown_state, shutdown_events.
  destruct (once_done st) eqn:H; [split; [exact H|reflexivity]|].
  right. split; [reflexivity|]. rewrite shutdown_body_steps. unfold steps.
  destruct (resourcesCloser st); [exists true | exists false]; reflexivity.
Qed.

Ltac once_leaf :=
  first [ apply once_emit; reflexivity
        | apply once_modify; intros ?; reflexivity
        | apply once_shutdown ].

Ltac once_auto := sat_auto once_rel_refl once_rel_trans once_leaf.

Lemma once_signal_point (p : SignalTiming) : sat (once_rel uf) (signal_point uf w p).
Proof. unfold signal_point, signal_watcher. once_auto. Qed.

Lemma once_emitEndLogs (b : bool) : sat (once_rel uf) (emitEndLogs uf w b).
Proof. unfold emitEndLogs. once_auto. Qed.

Lemma once_Before : sat (once_rel uf) (Before uf w).
Proof. unfold Before. once_auto. Qed.

Lemma once_RunContext : sat (once_rel uf) (RunContext uf w).
Proof.
  unfold RunContext.
  sat_auto once_rel_refl once_rel_trans
    ltac:(first [apply once_signal_point | apply once_Before | once_leaf]).
Qed.

Lemma once_deferred (r : option string) : sat (once_rel uf) (deferred uf w r).
Proof.
  unfold deferred.
  sat_auto once_rel_refl once_rel_trans
    ltac:(first [apply once_emitEndLogs | once_leaf]).
Qed.

Lemma once_RunAndExit_body : sat (once_rel uf) (RunAndExit_body uf w).
Proof.
  unfold RunAndExit_body.
  sat_auto once_rel_refl once_rel_trans
    ltac:(first [apply once_signal_point | apply once_RunContext
                | apply once_deferred | once_leaf]).
Qed.

(** Every path of the deferred function goes through [shutdown]. *)
Lemma deferred_done (r : option string) (st : RunState) :
  once_done (state (deferred uf w r) st) = true.
Proof.
  unfold deferred. rewrite state_bind. set (s1 := state _ st). clearbody s1.
  rewrite state_bind. change (state get s1) with s1. change (value get s1) with s1.
  destruct (scopeErr s1) as [e|].
  - destruct (errors_As_LockedError e && negb (stderr_is_terminal w)).
    + rewrite state_bind. apply shutdown_sets_done.
    + do 3 rewrite state_bind. apply shutdown_sets_done.
  - do 2 rewrite state_bind. apply shutdown_sets_done.
Qed.

Lemma RunAndExit_done : once_done (final (RunAndExit uf w)) = true.
Proof.
  unfold RunAndExit. cbn [final].
  change (snd (fst (RunAndExit_body uf w initial)))
    with (state (RunAndExit_body uf w) initial).
  unfold RunAndExit_body. do 3 rewrite state_bind. apply deferred_done.
Qed.

Lemma run_steps :
  exists closer_ran : bool,
    List.filter is_step (trace (RunAndExit uf w)) =
    (match BeforeShutdown uf with Some _ => [CallBeforeShutdown] | None => [] end)
    ++ [CancelContext]
    ++ (if closer_ran then [CallResourcesCloser] else []).
Proof.
  pose proof (once_RunAndExit_body initial) as H.
  pose proof RunAndExit_done as Hd.
  unfold once_rel in H. cbn [once_done initial] in H.
  destruct H as [[H _]|[_ H]]; [|exact H].
  unfold RunAndExit in Hd. cbn [final] in Hd.
  rewrite H in Hd. discriminate.
Qed.

End ShutdownFacts.

(** ** Invariants along a run *)

Section Invariants.

Variable uf : UFcli.
Variable w : World.

Section Inv.

Variable I : RunState -> Prop.
Variable ok : Event -> bool.

Lemma inv_rel_refl st : inv_rel I ok st st [].
Proof. intros H. split; [exact H|reflexivity]. Qed.

Lemma inv_rel_trans s1 s2 s3 t1 t2 :
  inv_rel I ok s1 s2 t1 -> inv_rel I ok s2 s3 t2 -> inv_rel I ok s1 s3 (t1 ++ t2).
Proof.
  intros H1 H2 H. destruct (H1 H) as [H' F1]. destruct (H2 H') as [H'' F2].
  split; [exact H''|]. rewrite List.forallb_app, F1, F2. reflexivity.
Qed.

Lemma inv_emit (e : Event) : ok e = true -> sat (inv_rel I ok) (emit e).
Proof.
  intros He st H. split; [exact H|]. unfold emit. cbn. rewrite He. reflexivity.
Qed.

Lemma inv_modify (f : RunState -> RunState) :
  (forall st, I st -> I (f st)) -> sat (inv_rel I ok) (modify f).
Proof. intros Hf st H. split; [apply Hf; exact H|reflexivity]. Qed.

(** The shutdown sequence fits whenever its five kinds of event do. *)
Lemma inv_shutdown (isNormal : bool) :
  (forall st, I st -> I (set_once_done true st)) ->
  ok CallBeforeShutdown = true -> ok CancelContext = true ->
  ok CallResourcesCloser = true -> ok Sleep250ms = true ->
  (forall msg, ok (Log WarnLevel ("error encountered during " +:+ msg) []) = true) ->
  sat (inv_rel I ok) (shutdown uf isNormal).
Proof.
  intros HI H1 H2 H3 H4 H5 st H.
  rewrite shutdown_state, shutdown_events.
  destruct (once_done st); [split; [exact H|reflexivity]|].
  split; [apply HI; exact H|].
  assert (H5a : forall x, ok (Log WarnLevel
            ("error encountered during before-shutdown cleanup: " +:+ x) []) = true)
    by (intros x; exact (H5 ("before-shutdown cleanup: " +:+ x))).
  assert (H5b : forall x, ok (Log WarnLevel
            ("error encountered during after-shutdown cleanup: " +:+ x) []) = true)
    by (intros x; exact (H5 ("after-shutdown cleanup: " +:+ x))).
  unfold shutdown_body, bind, emit, get, ret, when.
  destruct (BeforeShutdown uf) as [[e1|]|]; cbn [fst snd];
    destruct (resourcesCloser st) as [[e2|]|]; destruct isNormal;
    cbn [fst snd app forallb negb];
    rewrite ?H1, ?H2, ?H3, ?H4, ?H5a, ?H5b; reflexivity.
Qed.

End Inv.

Section Keep.

Context {A : Type}.
Variable f : RunState -> A.

Lemma keep_rel_refl st : keep_rel f st st [].
Proof. reflexivity. Qed.

Lemma keep_rel_trans s1 s2 s3 (t1 t2 : list Event) :
  keep_rel f s1 s2 t1 -> keep_rel f s2 s3 t2 -> keep_rel f s1 s3 (t1 ++ t2).
Proof. unfold keep_rel. congruence. Qed.

Lemma keep_emit (e : Event) : sat (keep_rel f) (emit e).
Proof. intros st. reflexivity. Qed.

Lemma keep_modify (g : RunState -> RunState) :
  (forall st, f (g st) = f st) -> sat (keep_rel f) (modify g).
Proof. intros Hg st. apply Hg. Qed.

Lemma keep_shutdown (isNormal : bool) :
  (forall st, f (set_once_done true st) = f st) ->
  sat (keep_rel f) (shutdown uf isNormal).
Proof.
  intros Hf st. unfold keep_rel. rewrite shutdown_state.
  destruct (once_done st); [reflexivity|apply Hf].
Qed.

End Keep.

End Invariants.

Ltac inv_leaf :=
  first [ apply inv_emit; reflexivity
        | apply inv_modify; intros ? ?; solve [assumption | exact Logic.I | cbn; assumption]
        | apply inv_shutdown;
          [ intros ? ?; solve [assumption | exact Logic.I | cbn; assumption]
          | reflexivity .. | intros ?; reflexivity ] ].

Ltac inv_auto extra :=
  sat_auto inv_rel_refl inv_rel_trans ltac:(first [extra | inv_leaf]).

Ltac keep_leaf :=
  first [ apply keep_emit
        | apply keep_modify; intros ?; reflexivity
        | apply keep_shutdown; intros ?; reflexivity ].

Ltac keep_auto extra :=
  sat_auto (@keep_rel_refl) (@keep_rel_trans) ltac:(first [extra | keep_leaf]).

(** ** The epilogue, case by case *)

Section RunFacts.

Variable uf : UFcli.
Variable w : World.

Lemma emitEndLogs_state (b : bool) (st : RunState) :
  state (emitEndLogs uf w b) st = st.
Proof.
  unfold emitEndLogs, bind, get, emit, ret. cbn [fst snd].
  destruct (currentCmdLock st); [|reflexivity]. cbn [fst snd].
  destruct (bool_decide _); [reflexivity|]. cbn [fst snd].
  destruct (push_result w); reflexivity.
Qed.

Lemma emitEndLogs_unlocked (b : bool) (st : RunState) :
  currentCmdLock st = None -> events (emitEndLogs uf w b) st = [].
Proof.
  intros H. unfold emitEndLogs, bind, get, emit, ret. cbn [fst snd].
  rewrite H. reflexivity.
Qed.

(** [errors_As_LockedError] follows the [Unwrap] chain. *)
Lemma errors_As_Unwrap (e : error) :
  errors_As_LockedError e =
  match e with
  | LockedError _ => true
  | _ => match Unwrap e with
         | Some inner => errors_As_LockedError inner
         | None => false
         end
  end.
Proof. destruct e; reflexivity. Qed.

Lemma panic_error_plain (pending : option error) (v : string) :
  errors_As_LockedError (panic_error w pending v) = false
  /\ FormatError (panic_error w pending v) = Error (panic_error w pending v).
Proof. destruct pending; split; reflexivity. Qed.

(** A (recovered uf w) panic: the error is logged, the outcome recorded as a
    failure, the exit code is 1. *)
Lemma deferred_recovered (v : string) (st : RunState) :
  let e := panic_error w (scopeErr st) v in
  let st1 := set_scopeErr (Some e) st in
  value (deferred uf w (Some v)) st = 1%Z
  /\ state (deferred uf w (Some v)) st = state (shutdown uf false) st1
  /\ events (deferred uf w (Some v)) st =
     Log ErrorLevel (Error e) [] :: events (emitEndLogs uf w false) st1
       ++ events (shutdown uf false) st1.
Proof.
  cbv zeta.
  destruct (panic_error_plain (scopeErr st) v) as [Has Hfmt].
  unfold deferred, bind, get, modify, emit, ret.
  cbn [fst snd scopeErr set_scopeErr].
  rewrite Has. cbn [andb fst snd app]. rewrite Hfmt, emitEndLogs_state.
  rewrite List.app_nil_r. repeat split; reflexivity.
Qed.

(** A pending error that is a held lock, away from a terminal. *)
Lemma deferred_silent (e : error) (st : RunState) :
  scopeErr st = Some e ->
  errors_As_LockedError e = true -> stderr_is_terminal w = false ->
  value (deferred uf w None) st = 1%Z
  /\ state (deferred uf w None) st = state (shutdown uf true) st
  /\ events (deferred uf w None) st = events (shutdown uf true) st.
Proof.
  intros He Has Htty.
  unfold deferred, bind, get, modify, emit, ret. cbn [fst snd].
  rewrite He, Has, Htty. cbn [andb negb fst snd app].
  rewrite List.app_nil_r. repeat split; reflexivity.
Qed.

(** Any other pending error. *)
Lemma deferred_failure (e : error) (st : RunState) :
  scopeErr st = Some e ->
  errors_As_LockedError e && negb (stderr_is_terminal w) = false ->
  value (deferred uf w None) st = 1%Z
  /\ state (deferred uf w None) st = state (shutdown uf false) st
  /\ events (deferred uf w None) st =
     Log ErrorLevel (FormatError e) [] :: events (emitEndLogs uf w false) st
       ++ events (shutdown uf false) st.
Proof.
  intros He Hloud.
  unfold deferred, bind, get, modify, emit, ret. cbn [fst snd].
  rewrite He, Hloud. cbn [fst snd app]. rewrite emitEndLogs_state.
  rewrite List.app_nil_r. repeat split; reflexivity.
Qed.

(** No pending error. *)
Lemma deferred_success (st : RunState) :
  scopeErr st = None ->
  value (deferred uf w None) st = 0%Z
  /\ state (deferred uf w None) st = state (shutdown uf true) st
  /\ events (deferred uf w None) st =
     events (emitEndLogs uf w true) st ++ events (shutdown uf true) st.
Proof.
  intros He.
  unfold deferred, bind, get, modify, emit, ret. cbn [fst snd].
  rewrite He. cbn [fst snd app]. rewrite emitEndLogs_state.
  rewrite List.app_nil_r. repeat split; reflexivity.
Qed.

(** The signal watcher changes nothing but the once-guard. *)
Lemma signal_point_state (p : SignalTiming) (st : RunState) :
  state (signal_point uf w p) st = st
  \/ state (signal_point uf w p) st = set_once_done true st.
Proof.
  unfold signal_point, when, signal_watcher, bind, emit, ret.
  destruct (fires_at w p); [|left; reflexivity]. cbn [fst snd].
  rewrite shutdown_state. destruct (once_done st); [left|right]; reflexivity.
Qed.

Lemma keep_signal_point {A} (f : RunState -> A) (p : SignalTiming) :
  (forall st, f (set_once_done true st) = f st) ->
  sat (keep_rel f) (signal_point uf w p).
Proof.
  intros Hf st. unfold keep_rel.
  destruct (signal_point_state p st) as [-> | ->]; [reflexivity|apply Hf].
Qed.

Lemma RunAndExit_split :
  code (RunAndExit uf w) = value (deferred uf w (recovered uf w)) (epilogue_state uf w)
  /\ final (RunAndExit uf w) = state (deferred uf w (recovered uf w)) (epilogue_state uf w)
  /\ exists before,
       trace (RunAndExit uf w) = before ++ events (deferred uf w (recovered uf w)) (epilogue_state uf w)
       /\ before = events (RunContext uf w) initial
                   ++ events (signal_point uf w SigBeforeEpilogue)
                        (match (run_outcome uf w) with
                         | Returns err => set_scopeErr err (state (RunContext uf w) initial)
                         | Panics _ => state (RunContext uf w) initial
                         end).
Proof.
  unfold RunAndExit, RunAndExit_body, recovered, epilogue_state, run_outcome.
  cbn [code final trace]. unfold bind.
  destruct (RunContext uf w initial) as [[[err|v] s1] t1];
    unfold modify, ret; cbn [fst snd app];
    repeat split; eexists; (split; [|reflexivity]);
    rewrite ?List.app_nil_r, ?List.app_assoc; reflexivity.
Qed.

End RunFacts.

(** ** The hook, case by case *)

Section HookFacts.

Variable uf : UFcli.
Variable w : World.

Lemma scan_args_help (m : gmap string string) (args : list string) :
  forall cur, snd (scan_args m args cur) = existsb is_help_flag args.
Proof.
  induction args as [|a rest IH]; intros cur; [reflexivity|].
  cbn [scan_args existsb]. destruct (is_help_flag a); [reflexivity|].
  cbn [orb]. destruct (negb (bool_decide (cur = ""))); apply IH.
Qed.

Lemma Before_fresh (st : RunState) :
  currentCmd st = "" ->
  value (Before uf w) st = (hook_error uf w)
  /\ events (Before uf w) st = (hook_events uf w)
  /\ (currentCmdLock st = None -> currentCmdLock (state (Before uf w) st) = (hook_handle uf w))
  /\ (forall cmd, toml_load w = None -> (resolved uf w) = Some cmd ->
        currentCmd (state (Before uf w) st) = cmd)
  /\ scopeErr (state (Before uf w) st) = scopeErr st
  /\ once_done (state (Before uf w) st) = once_done st.
Proof.
  intros Hcur.
  unfold Before, hook_error, hook_events, hook_handle, resolved.
  mrun.
  destruct (toml_load w) as [err|]; mrun; [fin|].
  rewrite Hcur.
  set (cmdNames := build_cmdNames (App.Commands (AppConfig uf))).
  set (scan := scan_args cmdNames (drop 1 (os_Args w)) "").
  destruct (snd scan); mrun; [fin|].
  destruct (bool_decide (size cmdNames = 0)); mrun.
  - change (bool_decide ("Action" = "")) with false. mrun.
    set (lk := fslock_Lock w (os_TempDir w) (lock_key uf "Action")).
    destruct (snd lk) as [e|]; mrun; [fin|].
    destruct (GlobalInit uf) as [[closer err]|]; mrun; fin.
  - destruct (bool_decide (fst scan = "")); mrun; [fin|].
    set (lk := fslock_Lock w (os_TempDir w) (lock_key uf (fst scan))).
    destruct (snd lk) as [e|]; mrun; [fin|].
    destruct (GlobalInit uf) as [[closer err]|]; mrun; fin.
Qed.

Lemma signal_point_fresh (p : SignalTiming) (st : RunState) :
  currentCmd (state (signal_point uf w p) st) = currentCmd st
  /\ currentCmdLock (state (signal_point uf w p) st) = currentCmdLock st
  /\ scopeErr (state (signal_point uf w p) st) = scopeErr st.
Proof.
  destruct (signal_point_state uf w p st) as [-> | ->]; repeat split; reflexivity.
Qed.

(** What the engine returns, and what it leaves behind. *)
Lemma RunContext_fresh :
  run_outcome uf w =
    (if engine_calls_Before w
     then match (hook_error uf w) with
          | Some e => Returns (Some e)
          | None => engine_body w
          end
     else engine_body w)
  /\ currentCmdLock (state (RunContext uf w) initial) =
       (if engine_calls_Before w then (hook_handle uf w) else None)
  /\ scopeErr (state (RunContext uf w) initial) = None
  /\ (forall cmd, engine_calls_Before w = true -> toml_load w = None ->
        (resolved uf w) = Some cmd ->
        currentCmd (state (RunContext uf w) initial) = cmd)
  /\ exists t0 t1,
       events (RunContext uf w) initial =
         t0 ++ (if engine_calls_Before w then (hook_events uf w) else []) ++ t1
       /\ t0 = events (signal_point uf w SigBeforeHook) initial.
Proof.
  unfold run_outcome, RunContext. mrun.
  destruct (signal_point_fresh SigBeforeHook initial) as (Hc0 & Hl0 & He0).
  set (s0 := snd (fst (signal_point uf w SigBeforeHook initial))) in *.
  cbn in Hc0, Hl0, He0.
  destruct (engine_calls_Before w); mrun.
  - destruct (Before_fresh s0 Hc0) as (Hv & Hev & Hlk & Hcmd & Herr & _).
    specialize (Hlk Hl0). rewrite Hv, Hev.
    set (s1 := snd (fst (Before uf w s0))) in *.
    destruct (hook_error uf w) as [e|]; mrun.
    + rewrite Herr, He0. repeat split; try assumption; try reflexivity.
      * intros cmd _ Ht Hr. apply Hcmd; assumption.
      * eexists _, []. split; [|reflexivity]. reflexivity.
    + destruct (signal_point_fresh SigDuringBody s1) as (Hc1 & Hl1 & He1).
      rewrite Hl1, He1, Hc1, Herr, He0.
      repeat split; try assumption; try reflexivity.
      * intros cmd _ Ht Hr. apply Hcmd; assumption.
      * eexists _, _. split; [|reflexivity]. rewrite List.app_nil_r. reflexivity.
  - destruct (signal_point_fresh SigDuringBody s0) as (Hc1 & Hl1 & He1).
    rewrite Hl1, He1, Hl0, He0.
    repeat split; try reflexivity.
    + intros; discriminate.
    + eexists _, _. split; [|reflexivity]. rewrite List.app_nil_r. reflexivity.
Qed.

End HookFacts.

(** ** Whole runs *)

Section WholeRun.

Variable uf : UFcli.
Variable w : World.

Lemma never_closes : sat (inv_rel (fun _ => True) not_Close) (RunAndExit_body uf w).
Proof.
  unfold RunAndExit_body, RunContext, Before, deferred, emitEndLogs,
    signal_point, signal_watcher.
  inv_auto fail.
Qed.

(** Nothing is recorded before the deferred function runs. *)
Lemma prelude_not_record :
  forallb not_record
    (events (RunContext uf w) initial
     ++ events (signal_point uf w SigBeforeEpilogue)
          (match run_outcome uf w with
           | Returns err => set_scopeErr err (state (RunContext uf w) initial)
           | Panics _ => state (RunContext uf w) initial
           end)) = true.
Proof.
  assert (H1 : sat (inv_rel (fun _ => True) not_record) (RunContext uf w)).
  { unfold RunContext, Before, signal_point, signal_watcher. inv_auto fail. }
  assert (H2 : sat (inv_rel (fun _ => True) not_record)
                   (signal_point uf w SigBeforeEpilogue)).
  { unfold signal_point, signal_watcher. inv_auto fail. }
  rewrite List.forallb_app.
  destruct (H1 initial Logic.I) as [_ ->].
  match goal with |- context [signal_point uf w _ ?s] =>
    destruct (H2 s Logic.I) as [_ ->] end.
  reflexivity.
Qed.

(** Without a handle the recorder and the shutdown sequence stay
    quiet: for every invariant [I] that implies an empty
    [currentCmdLock] and survives the once-guard and [scopeErr]. *)
Section Quiet.

Variable I : RunState -> Prop.
Hypothesis I_unlocked : forall st, I st -> currentCmdLock st = None.
Hypothesis I_once : forall st, I st -> I (set_once_done true st).
Hypothesis I_err : forall e st, I st -> I (set_scopeErr e st).

Ltac quiet_leaf :=
  first [ apply inv_modify; intros ? ?; apply I_err; assumption
        | apply inv_shutdown;
          [ intros ? ?; apply I_once; assumption
          | reflexivity .. | intros ?; reflexivity ] ].

Lemma quiet_emitEndLogs (b : bool) : sat (inv_rel I quiet) (emitEndLogs uf w b).
Proof.
  intros st H.
  rewrite emitEndLogs_state, (emitEndLogs_unlocked uf w b st (I_unlocked st H)).
  split; [exact H|reflexivity].
Qed.

Lemma quiet_signal_point (p : SignalTiming) :
  sat (inv_rel I quiet) (signal_point uf w p).
Proof. unfold signal_point, signal_watcher. inv_auto quiet_leaf. Qed.

Lemma quiet_deferred (r : option string) : sat (inv_rel I quiet) (deferred uf w r).
Proof.
  unfold deferred.
  inv_auto ltac:(first [apply quiet_emitEndLogs | quiet_leaf]).
Qed.

Lemma quiet_run :
  sat (inv_rel I quiet) (Before uf w) -> I initial ->
  forallb quiet (trace (RunAndExit uf w)) = true /\ I (final (RunAndExit uf w)).
Proof.
  intros HB H0.
  assert (H : sat (inv_rel I quiet) (RunAndExit_body uf w)).
  { unfold RunAndExit_body, RunContext.
    inv_auto ltac:(first [ apply quiet_signal_point | apply quiet_deferred
                         | apply HB | quiet_leaf ]). }
  destruct (H initial H0) as [Hl Hq]. split; [exact Hq|exact Hl].
Qed.

End Quiet.

(** With a help flag among [os.Args[1:]] the hook returns before the
    lock. *)
Lemma Before_help (st : RunState) :
  existsb is_help_flag (drop 1 (os_Args w)) = true ->
  value (Before uf w) st = WrErr (frame_toml w) (toml_load w)
  /\ events (Before uf w) st = [LoadConfig (TOMLPath uf)]
  /\ currentCmdLock (state (Before uf w) st) = currentCmdLock st.
Proof.
  intros Hhelp.
  unfold Before. mrun.
  destruct (toml_load w); mrun; [fin|].
  rewrite !scan_args_help, Hhelp. mrun. fin.
Qed.

Lemma quiet_run_help :
  existsb is_help_flag (drop 1 (os_Args w)) = true ->
  forallb quiet (trace (RunAndExit uf w)) = true
  /\ currentCmdLock (final (RunAndExit uf w)) = None.
Proof.
  intros Hhelp.
  apply (quiet_run unlocked); try (intros; assumption); try reflexivity.
  intros st H. destruct (Before_help st Hhelp) as (_ & -> & Hl).
  split; [unfold unlocked; rewrite Hl; exact H|reflexivity].
Qed.

Lemma scan_args_nomatch (m : gmap string string) (args : list string) :
  (forall a, In a args -> m !! a = None) -> fst (scan_args m args "") = "".
Proof.
  induction args as [|a rest IH]; intros Hno; [reflexivity|].
  cbn [scan_args]. destruct (is_help_flag a); [reflexivity|].
  change (negb (bool_decide ("" = ""))) with false. cbv iota.
  rewrite (Hno a (or_introl eq_refl)). cbn [default].
  apply IH. intros b Hb. apply Hno. right. exact Hb.
Qed.

(** With known commands none of which an argument names, the hook
    resolves nothing and returns before the lock. *)
Lemma quiet_run_nomatch :
  size (build_cmdNames (App.Commands (AppConfig uf))) <> 0 ->
  (forall a, In a (drop 1 (os_Args w)) ->
     build_cmdNames (App.Commands (AppConfig uf)) !! a = None) ->
  resolved uf w = None
  /\ forallb quiet (trace (RunAndExit uf w)) = true
  /\ currentCmdLock (final (RunAndExit uf w)) = None.
Proof.
  intros Hsize Hno.
  pose proof (scan_args_nomatch _ _ Hno) as Hscan.
  assert (Hres : resolved uf w = None).
  { unfold resolved. cbv zeta. rewrite Hscan.
    destruct (snd _); [reflexivity|].
    rewrite (bool_decide_eq_false_2 _ Hsize). reflexivity. }
  split; [exact Hres|].
  assert (H : forallb quiet (trace (RunAndExit uf w)) = true
              /\ fresh (final (RunAndExit uf w))).
  { apply (quiet_run fresh).
    - intros st [H _]. exact H.
    - intros st H. exact H.
    - intros e st H. exact H.
    - intros st [Hl Hc].
      destruct (Before_fresh uf w st Hc) as (_ & Hev & Hlk & _).
      specialize (Hlk Hl).
      assert (Hcur : currentCmd (state (Before uf w) st) = "").
      { unfold Before. mrun.
        destruct (toml_load w); mrun; [exact Hc|].
        rewrite Hc.
        set (scan := scan_args (build_cmdNames (App.Commands (AppConfig uf)))
                       (drop 1 (os_Args w)) "") in *.
        destruct (snd scan); mrun; [exact Hscan|].
        rewrite (bool_decide_eq_false_2 _ Hsize). mrun. rewrite Hscan.
        change (bool_decide ("" = "")) with true. mrun. reflexivity. }
      split; [split; [|exact Hcur]|].
      + rewrite Hlk. unfold hook_handle. rewrite Hres.
        destruct (toml_load w); reflexivity.
      + rewrite Hev. unfold hook_events. rewrite Hres.
        destruct (toml_load w); reflexivity.
    - split; reflexivity. }
  destruct H as [Hq [Hl _]]. split; assumption.
Qed.

(** The state in which the deferred function starts. *)
Lemma epilogue_fresh :
  scopeErr (epilogue_state uf w) =
    match run_outcome uf w with Returns err => err | Panics _ => None end
  /\ currentCmdLock (epilogue_state uf w) =
       (if engine_calls_Before w then hook_handle uf w else None)
  /\ (forall cmd, engine_calls_Before w = true -> toml_load w = None ->
        resolved uf w = Some cmd -> currentCmd (epilogue_state uf w) = cmd).
Proof.
  destruct (RunContext_fresh uf w) as (_ & Hl & He & Hc & _).
  unfold epilogue_state.
  match goal with |- context [signal_point uf w _ ?s] =>
    destruct (signal_point_fresh uf w SigBeforeEpilogue s) as (-> & -> & ->) end.
  destruct (run_outcome uf w); cbn [scopeErr currentCmdLock currentCmd set_scopeErr];
    repeat split; assumption.
Qed.

(** The exit code is decided by what the engine handed back. *)
Lemma code_spec :
  code (RunAndExit uf w) =
  match run_outcome uf w with Returns None => 0%Z | _ => 1%Z end.
Proof.
  destruct (RunAndExit_split uf w) as (-> & _).
  destruct epilogue_fresh as (He & _). unfold recovered.
  destruct (run_outcome uf w) as [[e|]|v].
  - destruct (errors_As_LockedError e && negb (stderr_is_terminal w)) eqn:Hs.
    + apply andb_prop in Hs as [Ha Ht]. apply negb_true_iff in Ht.
      apply (deferred_silent uf w e _ He Ha Ht).
    + apply (deferred_failure uf w e _ He Hs).
  - apply (deferred_success uf w _ He).
  - apply deferred_recovered.
Qed.

End WholeRun.

(** ** The shutdown sequence *)

Lemma shutdown_body_events (uf : UFcli) (isNormal : bool) (st : RunState) :
  events (shutdown_body uf isNormal) st =
  match BeforeShutdown uf with
  | Some r =>
      CallBeforeShutdown ::
      match r with
      | Some err =>
          [Log WarnLevel ("error encountered during before-shutdown cleanup: "
                          +:+ FormatError err) []]
      | None => []
      end
  | None => []
  end
  ++ [CancelContext]
  ++ match resourcesCloser st with
     | Some r =>
         CallResourcesCloser ::
         match r with
         | Some err =>
             [Log WarnLevel ("error encountered during after-shutdown cleanup: "
                             +:+ FormatError err) []]
         | None => []
         end
     | None => []
     end
  ++ (if isNormal then [] else [Sleep250ms]).
Proof.
  unfold shutdown_body, bind, emit, get, ret, when.
  destruct (BeforeShutdown uf) as [[?|]|]; cbn [fst snd];
    destruct (resourcesCloser st) as [[?|]|]; destruct isNormal; reflexivity.
Qed.

(** C1: the first invocation of [shutdown] takes the steps of the
    sequence once and in order (pre-shutdown callback, cancellation of
    the root context, resource closer), logs an error of the callback or
    of the closer as a warning and changes nothing but the once-guard;
    every later invocation, whatever its argument, does nothing; and in
    every run of [RunAndExit], whichever of the signal watcher and the
    deferred function gets there first, the trace holds the three steps
    exactly once, in that order. *)
Theorem shutdown_exactly_once (uf : UFcli) (w : World) (st : RunState)
    (isNormal : bool) (later : list bool) :
  once_done st = false ->
  let st1 := state (shutdown uf isNormal) st in
  let tr1 := events (shutdown uf isNormal) st in
  List.filter is_step tr1 = steps uf st
  /\ forallb warning_or_action tr1 = true
  /\ (forall err, BeforeShutdown uf = Some (Some err) ->
        In (Log WarnLevel ("error encountered during before-shutdown cleanup: "
                           +:+ FormatError err) []) tr1)
  /\ (forall err, resourcesCloser st = Some (Some err) ->
        In (Log WarnLevel ("error encountered during after-shutdown cleanup: "
                           +:+ FormatError err) []) tr1)
  /\ st1 = set_once_done true st
  /\ state (shutdown_calls uf later) st1 = st1
  /\ events (shutdown_calls uf later) st1 = []
  /\ exists closer_ran : bool,
       List.filter is_step (trace (RunAndExit uf w)) =
       (match BeforeShutdown uf with Some _ => [CallBeforeShutdown] | None => [] end)
       ++ [CancelContext]
       ++ (if closer_ran then [CallResourcesCloser] else []).
Proof.
  intros Hfresh. cbv zeta.
  rewrite shutdown_state, shutdown_events, Hfresh.
  split; [apply shutdown_body_steps|].
  split; [apply shutdown_body_warnings|].
  split.
  { intros err H. rewrite shutdown_body_events, H.
    cbn [app]. right. left. reflexivity. }
  split.
  { intros err H. rewrite shutdown_body_events, H.
    apply List.in_or_app. right. cbn [app]. right. right. left. reflexivity. }
  split; [reflexivity|].
  destruct (shutdown_calls_done uf later (set_once_done true st) eq_refl) as [Hs He].
  split; [exact Hs|]. split; [exact He|].
  apply run_steps.
Qed.

Lemma shutdown_exactly_once_witness :
  once_done initial = false
  /\ List.filter is_step (events (shutdown sync_app true) initial) = [CallBeforeShutdown; CancelContext]
  /\ events (shutdown_calls sync_app [false; true]) (state (shutdown sync_app true) initial) = [].
Proof.
  split; [reflexivity|].
  pose proof (shutdown_exactly_once sync_app sync_world initial true [false; true] eq_refl) as H.
  cbv zeta in H. destruct H as (H1 & _ & _ & _ & _ & _ & H2 & _).
  split; [exact H1|exact H2].
Defined.

(** ** Panics *)

Lemma append_assoc (a b c : string) : (a +:+ b) +:+ c = a +:+ b +:+ c.
Proof. induction a as [|x a IH]; [reflexivity|]. cbn. rewrite IH. reflexivity. Qed.

Lemma contains_inside (a x b : string) : contains x (a +:+ x +:+ b).
Proof. exists a, b. reflexivity. Qed.

Lemma contains_later (a x s : string) : contains x s -> contains x (a +:+ s).
Proof.
  intros (pre & post & ->). exists (a +:+ pre), post. rewrite append_assoc. reflexivity.
Qed.

Lemma contains_end (a x : string) : contains x (a +:+ x).
Proof.
  exists a, "". f_equal. induction x as [|c x IH]; [reflexivity|].
  cbn. rewrite <- IH. reflexivity.
Qed.

Lemma forallb_weaken {A} (p q : A -> bool) (l : list A) :
  (forall x, p x = true -> q x = true) ->
  forallb p l = true -> forallb q l = true.
Proof.
  intros Hpq. induction l as [|x l IH]; [reflexivity|].
  cbn. intros H. apply andb_prop in H as [Hx Hl].
  rewrite (Hpq x Hx), (IH Hl). reflexivity.
Qed.

Lemma not_record_no_success (e : Event) : not_record e = true -> no_success e = true.
Proof.
  unfold not_record, no_success.
  destruct e as [[| |] msg args| | | | | | | | |];
    cbn -[has_prefix]; try reflexivity; try discriminate;
    destruct (has_prefix "=== FINISH '" msg); cbn; try reflexivity; discriminate.
Qed.

Lemma failure_no_success (uf : UFcli) (w : World) (isNormal : bool) (st : RunState) :
  forallb no_success (events (emitEndLogs uf w false) st ++ events (shutdown uf isNormal) st)
  = true.
Proof.
  rewrite List.forallb_app. apply andb_true_intro. split.
  - unfold emitEndLogs. mrun.
    destruct (currentCmdLock st); mrun; [|reflexivity].
    destruct (bool_decide (url (promPushConf st) = "")); mrun; [reflexivity|].
    destruct (push_result w); reflexivity.
  - assert (H : sat (inv_rel (fun _ => True) no_success) (shutdown uf isNormal))
      by (inv_auto fail).
    apply (H st Logic.I).
Qed.

(** C2: a panic recovered by the deferred function ends the run with
    exit code 1, the error logged and the outcome recorded as a failure,
    whatever had been captured before; the logged message holds the
    panic text and the stack trace, and the text of an error already
    captured; and a run of [RunAndExit] whose engine panics exits with
    code 1, logs that message and reports no success anywhere. *)
Theorem panic_is_failure (uf : UFcli) (w : World) (st : RunState) (v : string) :
  let msg := Error (panic_error w (scopeErr st) v) in
  let st1 := set_scopeErr (Some (panic_error w (scopeErr st) v)) st in
  value (deferred uf w (Some v)) st = 1%Z
  /\ events (deferred uf w (Some v)) st =
       Log ErrorLevel msg [] :: events (emitEndLogs uf w false) st1
         ++ events (shutdown uf false) st1
  /\ forallb no_success (events (deferred uf w (Some v)) st) = true
  /\ contains v msg /\ contains (debug_Stack w) msg
  /\ (forall orig, scopeErr st = Some orig -> contains (Error orig) msg)
  /\ (run_outcome uf w = Panics v ->
      code (RunAndExit uf w) = 1%Z
      /\ forallb no_success (trace (RunAndExit uf w)) = true
      /\ exists logged, In (Log ErrorLevel logged []) (trace (RunAndExit uf w))
                        /\ contains v logged /\ contains (debug_Stack w) logged).
Proof.
  cbv zeta.
  destruct (deferred_recovered uf w v st) as (Hv & _ & Hev).
  assert (Hc : forall pending,
             contains v (Error (panic_error w pending v))
             /\ contains (debug_Stack w) (Error (panic_error w pending v))).
  { intros [e|]; cbn [panic_error Error]; split.
    - apply contains_later, contains_later, contains_inside.
    - do 4 apply contains_later. apply contains_end.
    - apply contains_inside.
    - do 2 apply contains_later. apply contains_end. }
  split; [exact Hv|]. split; [exact Hev|].
  split.
  { rewrite Hev. cbn [forallb]. apply failure_no_success. }
  split; [apply Hc|]. split; [apply Hc|].
  split.
  { intros orig ->. cbn [panic_error Error]. apply contains_inside. }
  intros Hout.
  split; [rewrite code_spec, Hout; reflexivity|].
  destruct (RunAndExit_split uf w) as (_ & _ & before & Htr & Hbefore).
  pose proof (prelude_not_record uf w) as Hpre. rewrite <- Hbefore in Hpre.
  unfold recovered in Htr. rewrite Hout in Htr.
  destruct (deferred_recovered uf w v (epilogue_state uf w)) as (_ & _ & Hev').
  rewrite Hev' in Htr. rewrite Htr.
  split.
  { rewrite List.forallb_app.
    rewrite (forallb_weaken _ _ _ not_record_no_success Hpre).
    cbn [andb forallb]. apply failure_no_success. }
  eexists. split.
  { apply List.in_or_app. right. left. reflexivity. }
  apply Hc.
Qed.

Lemma panic_is_failure_witness :
  run_outcome sync_app panic_world = Panics "index out of range"
  /\ code (RunAndExit sync_app panic_world) = 1%Z
  /\ contains "partial failure"
       (Error (panic_error panic_world (Some (ErrorString "partial failure"))
                 "index out of range")).
Proof.
  pose proof (panic_is_failure sync_app panic_world
                (set_scopeErr (Some (ErrorString "partial failure")) initial)
                "index out of range") as H.
  cbv zeta in H. destruct H as (_ & _ & _ & _ & _ & Horig & Hrun).
  split; [reflexivity|].
  split; [apply Hrun; reflexivity|].
  apply (Horig (ErrorString "partial failure")). reflexivity.
Defined.

(** ** The lock handle *)

Lemma keep_lock_deferred (uf : UFcli) (w : World) (r : option string) :
  sat (keep_rel currentCmdLock) (deferred uf w r).
Proof.
  unfold deferred.
  keep_auto ltac:(intros ?; unfold keep_rel; rewrite emitEndLogs_state; reflexivity).
Qed.

Lemma final_lock (uf : UFcli) (w : World) :
  currentCmdLock (final (RunAndExit uf w)) =
  (if engine_calls_Before w then hook_handle uf w else None).
Proof.
  destruct (RunAndExit_split uf w) as (_ & -> & _).
  rewrite (keep_lock_deferred uf w (recovered uf w) (epilogue_state uf w)).
  apply epilogue_fresh.
Qed.

(** C3, counterexample: in this run the lock is acquired, the shutdown
    sequence runs, and the process exits with the handle still in
    [currentCmdLock]; nothing has closed it. *)
Lemma lock_not_released :
  fslock_Lock sync_world "/tmp" "app-sync" = (Some (LockHandle "/tmp/app-sync"), None)
  /\ trace (RunAndExit sync_app sync_world) =
       [ LoadConfig "app.toml"; LockAttempt "/tmp" "app-sync";
         Log InfoLevel "=== BEGIN 'sync' run" []; CallGlobalInit;
         Log InfoLevel "=== FINISH 'sync' run"
           [("success", ArgBool true); ("took", ArgDuration 1500000000)];
         CallBeforeShutdown; CancelContext; CallResourcesCloser ]
  /\ existsb is_Close (trace (RunAndExit sync_app sync_world)) = false
  /\ currentCmdLock (final (RunAndExit sync_app sync_world))
     = Some (LockHandle "/tmp/app-sync").
Proof. vm_compute. repeat split; reflexivity. Qed.

(** C3, amended: no step of a run closes the lock handle, whether the
    acquisition succeeded or not; the shutdown sequence leaves
    [currentCmdLock] as it is, and at [os.Exit] the variable still holds
    what [fslock.Lock] returned to the hook (nothing when the hook did
    not get to the lock): the release is left to the end of the
    process. *)
Theorem lock_held_until_exit (uf : UFcli) (w : World) (isNormal : bool) (st : RunState) :
  forallb not_Close (trace (RunAndExit uf w)) = true
  /\ forallb not_Close (events (shutdown uf isNormal) st) = true
  /\ currentCmdLock (state (shutdown uf isNormal) st) = currentCmdLock st
  /\ currentCmdLock (final (RunAndExit uf w)) =
       (if engine_calls_Before w
        then match toml_load w, resolved uf w with
             | None, Some cmd => fst (fslock_Lock w (os_TempDir w) (lock_key uf cmd))
             | _, _ => None
             end
        else None).
Proof.
  split; [apply (never_closes uf w initial Logic.I)|].
  split.
  { assert (H : sat (inv_rel (fun _ => True) not_Close) (shutdown uf isNormal))
      by (inv_auto fail).
    apply (H st Logic.I). }
  split.
  { rewrite shutdown_state. destruct (once_done st); reflexivity. }
  rewrite final_lock. unfold hook_handle.
  destruct (engine_calls_Before w); [|reflexivity].
  destruct (toml_load w); [reflexivity|]. destruct (resolved uf w); reflexivity.
Qed.

(** ** Exit codes *)

Lemma hook_error_cleanup (uf uf' : UFcli) (w : World) (r : option string) :
  same_but_cleanup uf uf' ->
  hook_error uf' (with_push_result r w) = hook_error uf w.
Proof.
  intros (Happ & _ & Hinit).
  unfold hook_error, resolved, lock_key.
  cbn [toml_load os_Args os_TempDir fslock_Lock frame_toml frame_init with_push_result].
  rewrite Happ.
  destruct (toml_load w); [reflexivity|].
  match goal with |- match ?x with _ => _ end = _ => destruct x; [|reflexivity] end.
  match goal with |- match ?x with _ => _ end = _ => destruct x; [reflexivity|] end.
  destruct (GlobalInit uf) as [[c e]|], (GlobalInit uf') as [[c' e']|];
    cbn in Hinit; congruence.
Qed.

Lemma run_outcome_cleanup (uf uf' : UFcli) (w : World) (r : option string) :
  same_but_cleanup uf uf' ->
  run_outcome uf' (with_push_result r w) = run_outcome uf w.
Proof.
  intros H.
  destruct (RunContext_fresh uf w) as (-> & _).
  destruct (RunContext_fresh uf' (with_push_result r w)) as (-> & _).
  rewrite (hook_error_cleanup uf uf' w r H). reflexivity.
Qed.

(** C4: every run ends in [os.Exit], with code 0 or 1: 0 exactly when
    the engine returned without an error, 1 when it returned an error
    (of the command, or of the hook: configuration, lock, global
    initialisation) or panicked; and the code does not depend on the
    pre-shutdown callback, on the resource closer or on the answer of
    the metrics push. *)
Theorem exit_code (uf uf' : UFcli) (w : World) (r : option string) :
  (code (RunAndExit uf w) = 0%Z \/ code (RunAndExit uf w) = 1%Z)
  /\ (code (RunAndExit uf w) = 0%Z <-> run_outcome uf w = Returns None)
  /\ (forall e, run_outcome uf w = Returns (Some e) -> code (RunAndExit uf w) = 1%Z)
  /\ (forall v, run_outcome uf w = Panics v -> code (RunAndExit uf w) = 1%Z)
  /\ run_outcome uf w =
       (if engine_calls_Before w
        then match hook_error uf w with
             | Some e => Returns (Some e)
             | None => engine_body w
             end
        else engine_body w)
  /\ (engine_calls_Before w = true -> toml_load w = None ->
      forall cmd, resolved uf w = Some cmd ->
        (forall e, snd (fslock_Lock w (os_TempDir w) (lock_key uf cmd)) = Some e ->
           code (RunAndExit uf w) = 1%Z)
        /\ (forall closer e,
              snd (fslock_Lock w (os_TempDir w) (lock_key uf cmd)) = None ->
              GlobalInit uf = Some (closer, Some e) ->
              code (RunAndExit uf w) = 1%Z))
  /\ (same_but_cleanup uf uf' ->
      code (RunAndExit uf' (with_push_result r w)) = code (RunAndExit uf w)).
Proof.
  pose proof (code_spec uf w) as Hcode.
  destruct (RunContext_fresh uf w) as (Hout & _).
  split; [rewrite Hcode; destruct (run_outcome uf w) as [[?|]|?]; auto|].
  split.
  { rewrite Hcode. destruct (run_outcome uf w) as [[?|]|?]; split;
      intros H; try reflexivity; discriminate. }
  split; [intros e H; rewrite Hcode, H; reflexivity|].
  split; [intros v H; rewrite Hcode, H; reflexivity|].
  split; [exact Hout|].
  split.
  { intros Hb Ht cmd Hr. rewrite Hcode, Hout, Hb. unfold hook_error.
    rewrite Ht, Hr. split.
    - intros e ->. reflexivity.
    - intros closer e -> ->. reflexivity. }
  intros H. rewrite Hcode, (code_spec uf' (with_push_result r w)).
  rewrite (run_outcome_cleanup uf uf' w r H). reflexivity.
Qed.

Lemma exit_code_witness :
  resolved sync_app held_world = Some "sync"
  /\ code (RunAndExit sync_app held_world) = 1%Z
  /\ code (RunAndExit (with_name "app") (with_push_result (Some "refused") sync_world))
     = code (RunAndExit (with_name "app") sync_world).
Proof.
  split; [reflexivity|].
  split.
  - destruct (exit_code sync_app sync_app held_world None)
      as (_ & _ & _ & _ & _ & Hlock & _).
    destruct (Hlock eq_refl eq_refl "sync" eq_refl) as [H _].
    apply (H (PathError "lock" "/tmp/app-sync" (LockedError "someone else has the lock"))).
    reflexivity.
  - destruct (exit_code (with_name "app") (with_name "app") sync_world (Some "refused"))
      as (_ & _ & _ & _ & _ & _ & Hsame).
    apply Hsame. repeat split; reflexivity.
Defined.

(** ** Lock contention *)

Lemma shutdown_not_record (uf : UFcli) (isNormal : bool) (st : RunState) :
  forallb not_record (events (shutdown uf isNormal) st) = true.
Proof.
  assert (H : sat (inv_rel (fun _ => True) not_record) (shutdown uf isNormal))
    by (inv_auto fail).
  apply (H st Logic.I).
Qed.

(** C5: when the hook's [fslock.Lock] fails with an error that is a
    [LockedError], the run exits with code 1; away from a terminal it
    does so in silence: the deferred function goes straight to
    [shutdown], so that the trace holds no error line, no FINISH line
    and no push; on a terminal the error is logged first. *)
Theorem lock_held_exit (uf : UFcli) (w : World) (cmd : string)
    (lk : option Closer) (e : error) :
  engine_calls_Before w = true -> toml_load w = None ->
  resolved uf w = Some cmd ->
  fslock_Lock w (os_TempDir w) (lock_key uf cmd) = (lk, Some e) ->
  errors_As_LockedError e = true ->
  code (RunAndExit uf w) = 1%Z
  /\ In (LockAttempt (os_TempDir w) (lock_key uf cmd)) (trace (RunAndExit uf w))
  /\ (stderr_is_terminal w = false ->
      forallb not_record (trace (RunAndExit uf w)) = true
      /\ exists before,
           trace (RunAndExit uf w) =
           before ++ events (shutdown uf true) (epilogue_state uf w))
  /\ (stderr_is_terminal w = true ->
      exists before after,
        trace (RunAndExit uf w) = before ++ Log ErrorLevel (FormatError e) [] :: after
        /\ forallb not_record before = true).
Proof.
  intros Hb Ht Hr Hlk Has.
  destruct (RunContext_fresh uf w) as (Hout & _ & _ & _ & t0 & t1 & Hev & _).
  assert (Hhook : hook_error uf w = Some e).
  { unfold hook_error. rewrite Ht, Hr, Hlk. reflexivity. }
  rewrite Hb, Hhook in Hout.
  destruct (epilogue_fresh uf w) as (He & _). rewrite Hout in He.
  destruct (RunAndExit_split uf w) as (_ & _ & before & Htr & Hbefore).
  pose proof (prelude_not_record uf w) as Hpre. rewrite <- Hbefore in Hpre.
  unfold recovered in Htr. rewrite Hout in Htr.
  split; [rewrite code_spec, Hout; reflexivity|].
  split.
  { rewrite Htr, Hbefore, Hev, Hb. unfold hook_events. rewrite Ht, Hr.
    apply List.in_or_app. left. apply List.in_or_app. left.
    apply List.in_or_app. right. apply List.in_or_app. left.
    right. left. reflexivity. }
  split.
  - intros Htty.
    destruct (deferred_silent uf w e _ He Has Htty) as (_ & _ & Hd).
    rewrite Hd in Htr. split; [|exists before; exact Htr].
    rewrite Htr, List.forallb_app, Hpre. apply shutdown_not_record.
  - intros Htty.
    destruct (deferred_failure uf w e (epilogue_state uf w) He) as (_ & _ & Hd).
    { rewrite Htty. apply andb_false_r. }
    rewrite Hd in Htr. eexists before, _. split; [exact Htr|exact Hpre].
Qed.

Lemma lock_held_exit_witness :
  code (RunAndExit sync_app held_world) = 1%Z
  /\ forallb not_record (trace (RunAndExit sync_app held_world)) = true.
Proof.
  destruct (lock_held_exit sync_app held_world "sync" None
              (PathError "lock" "/tmp/app-sync" (LockedError "someone else has the lock"))
              eq_refl eq_refl eq_refl eq_refl eq_refl) as (Hcode & _ & Hsilent & _).
  split; [exact Hcode|]. apply (Hsilent eq_refl).
Defined.

(** ** Help flags *)

Lemma quiet_no_outcome (e : Event) : quiet e = true -> no_outcome e = true.
Proof.
  unfold quiet, no_outcome. intros H. apply negb_true_iff in H.
  apply orb_false_elim in H as [H HP]. apply orb_false_elim in H as [_ HF].
  rewrite HF, HP. reflexivity.
Qed.

Lemma not_record_no_outcome (e : Event) : not_record e = true -> no_outcome e = true.
Proof.
  unfold not_record, no_outcome. intros H. apply negb_true_iff in H.
  apply orb_false_elim in H as [H _]. rewrite H. reflexivity.
Qed.

Lemma unlocked_no_outcome (uf : UFcli) (w : World) :
  currentCmdLock (final (RunAndExit uf w)) = None ->
  forallb no_outcome (trace (RunAndExit uf w)) = true.
Proof.
  intros Hfinal.
  destruct (RunAndExit_split uf w) as (_ & Hf & before & Htr & Hbefore).
  pose proof (prelude_not_record uf w) as Hpre. rewrite <- Hbefore in Hpre.
  rewrite Hf, (keep_lock_deferred uf w (recovered uf w) (epilogue_state uf w)) in Hfinal.
  assert (Hq : sat (inv_rel unlocked quiet) (deferred uf w (recovered uf w))).
  { apply quiet_deferred; intros; assumption. }
  destruct (Hq _ Hfinal) as [_ Hd].
  rewrite Htr, List.forallb_app.
  rewrite (forallb_weaken _ _ _ not_record_no_outcome Hpre).
  apply (forallb_weaken _ _ _ quiet_no_outcome Hd).
Qed.

(** C8: with [-h] or [--help] as the first argument, whatever follows
    it, the run attempts no lock and emits neither BEGIN nor FINISH, and
    pushes nothing; and a run that ends without a lock handle has
    recorded no outcome: no FINISH line, no push. *)
Theorem help_first_no_lock (uf : UFcli) (w : World) :
  (forall prog a rest,
     os_Args w = prog :: a :: rest -> is_help_flag a = true ->
     forallb quiet (trace (RunAndExit uf w)) = true
     /\ currentCmdLock (final (RunAndExit uf w)) = None)
  /\ (currentCmdLock (final (RunAndExit uf w)) = None ->
      forallb no_outcome (trace (RunAndExit uf w)) = true).
Proof.
  split; [|apply unlocked_no_outcome].
  intros prog a rest Hargs Hhelp. apply quiet_run_help.
  rewrite Hargs. change (drop 1 (prog :: a :: rest)) with (a :: rest).
  cbn [existsb]. rewrite Hhelp. reflexivity.
Qed.

Lemma help_first_no_lock_witness :
  os_Args help_first_world = ["app"; "--help"; "sync"]
  /\ forallb quiet (trace (RunAndExit sync_app help_first_world)) = true
  /\ forallb no_outcome (trace (RunAndExit sync_app help_first_world)) = true.
Proof.
  split; [reflexivity|].
  destruct (help_first_no_lock sync_app help_first_world) as [Hhelp Hrec].
  destruct (Hhelp "app" "--help" ["sync"] eq_refl eq_refl) as [Hq Hl].
  split; [exact Hq|]. apply Hrec. exact Hl.
Defined.

(** C10: with [-h] or [--help] anywhere in [os.Args[1:]], also after an
    argument that names a command, the hook returns before
    [fslock.Lock], having done nothing but load the configuration; the
    run attempts no lock, logs no BEGIN and records no outcome. *)
Theorem help_anywhere_no_lock (uf : UFcli) (w : World)
    (prog a : string) (pre post : list string) :
  os_Args w = prog :: pre ++ a :: post -> is_help_flag a = true ->
  (forall st, events (Before uf w) st = [LoadConfig (TOMLPath uf)]
              /\ currentCmdLock (state (Before uf w) st) = currentCmdLock st)
  /\ forallb quiet (trace (RunAndExit uf w)) = true
  /\ forallb no_outcome (trace (RunAndExit uf w)) = true
  /\ currentCmdLock (final (RunAndExit uf w)) = None.
Proof.
  intros Hargs Hhelp.
  assert (H : existsb is_help_flag (drop 1 (os_Args w)) = true).
  { rewrite Hargs. change (drop 1 (prog :: pre ++ a :: post)) with (pre ++ a :: post).
    rewrite List.existsb_app. cbn [existsb].
    rewrite Hhelp. rewrite orb_true_r. reflexivity. }
  split; [intros st; split; apply (Before_help uf w st H)|].
  destruct (quiet_run_help uf w H) as [Hq Hl].
  split; [exact Hq|]. split; [|exact Hl].
  apply (forallb_weaken _ _ _ quiet_no_outcome Hq).
Qed.

Lemma help_anywhere_no_lock_witness :
  build_cmdNames (App.Commands (AppConfig sync_app)) !! "sync" = Some "sync"
  /\ forallb quiet (trace (RunAndExit sync_app help_later_world)) = true
  /\ currentCmdLock (final (RunAndExit sync_app help_later_world)) = None.
Proof.
  split; [reflexivity|].
  destruct (help_anywhere_no_lock sync_app help_later_world "app" "-h" ["sync"] ["x"]
              eq_refl eq_refl) as (_ & Hq & _ & Hl).
  split; [exact Hq|exact Hl].
Defined.

(** ** The sentinel command *)

Lemma emitEndLogs_locked (uf : UFcli) (w : World) (b : bool) (st : RunState) (h : Closer) :
  currentCmdLock st = Some h ->
  exists rest, events (emitEndLogs uf w b) st = FINISH w (currentCmd st) b :: rest.
Proof.
  intros H. unfold emitEndLogs, bind, get, emit, ret. cbn [fst snd].
  rewrite H. cbn [fst snd app]. eexists. reflexivity.
Qed.

Lemma pair_in_trace {A} (b f : A) (p1 p2 q1 q2 : list A) :
  exists pre mid post,
    (p1 ++ b :: p2) ++ (q1 ++ f :: q2) = pre ++ b :: mid ++ f :: post.
Proof.
  exists p1, (p2 ++ q1), q2.
  rewrite <- !List.app_assoc. reflexivity.
Qed.

(** C9, counterexample: [app] knows the command [sync]; called as
    [app bogus], no argument names a command, and the run attempts no
    lock and emits neither BEGIN nor FINISH. *)
Lemma unknown_command_no_lock :
  (forall a, In a (drop 1 (os_Args bogus_world)) ->
     build_cmdNames (App.Commands (AppConfig sync_app)) !! a = None)
  /\ trace (RunAndExit sync_app bogus_world) =
       [ LoadConfig "app.toml";
         Log ErrorLevel "No help topic for 'bogus'" [];
         CallBeforeShutdown; CancelContext; Sleep250ms ]
  /\ existsb is_LockAttempt (trace (RunAndExit sync_app bogus_world)) = false
  /\ existsb is_BEGIN (trace (RunAndExit sync_app bogus_world)) = false
  /\ existsb is_FINISH (trace (RunAndExit sync_app bogus_world)) = false.
Proof.
  split.
  { intros a [<-|[]]. vm_compute. reflexivity. }
  vm_compute. repeat split; reflexivity.
Qed.

(** C9, amended: when the application has no commands (and no help
    flag is among the arguments) the hook resolves the sentinel
    [Action] and locks under it; if that lock is acquired, BEGIN and
    then FINISH with the truncated duration are logged for [Action],
    unless the run ends on the silent held-lock path.  When there are
    commands and no argument names one, the hook resolves nothing: no
    lock is attempted and neither BEGIN nor FINISH is logged. *)
Theorem sentinel_or_skip (uf : UFcli) (w : World) :
  let cmdNames := build_cmdNames (App.Commands (AppConfig uf)) in
  (size cmdNames = 0 ->
   existsb is_help_flag (drop 1 (os_Args w)) = false ->
   resolved uf w = Some "Action"
   /\ lock_key uf "Action" = promStr (App.Name (AppConfig uf)) +:+ "-Action"
   /\ (engine_calls_Before w = true -> toml_load w = None ->
       In (LockAttempt (os_TempDir w) (lock_key uf "Action")) (trace (RunAndExit uf w))
       /\ forall h,
            fslock_Lock w (os_TempDir w) (lock_key uf "Action") = (Some h, None) ->
            silent_exit uf w = false ->
            exists pre mid post wasSuccess,
              trace (RunAndExit uf w) =
              pre ++ Log InfoLevel "=== BEGIN 'Action' run" [] :: mid
                  ++ FINISH w "Action" wasSuccess :: post))
  /\ (size cmdNames <> 0 ->
      (forall a, In a (drop 1 (os_Args w)) -> cmdNames !! a = None) ->
      resolved uf w = None
      /\ forallb quiet (trace (RunAndExit uf w)) = true
      /\ currentCmdLock (final (RunAndExit uf w)) = None).
Proof.
  cbv zeta. split; [|apply quiet_run_nomatch].
  intros Hsize Hnohelp.
  assert (Hres : resolved uf w = Some "Action").
  { unfold resolved. cbv zeta. rewrite scan_args_help, Hnohelp.
    rewrite (bool_decide_eq_true_2 _ Hsize). reflexivity. }
  split; [exact Hres|]. split; [reflexivity|].
  intros Hb Ht.
  destruct (RunContext_fresh uf w) as (Hout & _ & _ & _ & t0 & t1 & Hev & _).
  destruct (RunAndExit_split uf w) as (_ & _ & before & Htr & Hbefore).
  rewrite Hev, Hb in Hbefore. unfold hook_events in Hbefore.
  rewrite Ht, Hres in Hbefore.
  split.
  { rewrite Htr, Hbefore.
    apply List.in_or_app. left. apply List.in_or_app. left.
    apply List.in_or_app. right. apply List.in_or_app. left.
    right. left. reflexivity. }
  intros h Hlk Hsilent. rewrite Hlk in Hbefore. cbn [snd] in Hbefore.
  destruct (epilogue_fresh uf w) as (He & Hl & Hc).
  specialize (Hc "Action" Hb Ht Hres).
  rewrite Hb in Hl. unfold hook_handle in Hl. rewrite Ht, Hres, Hlk in Hl. cbn [fst] in Hl.
  assert (Hp1 : exists p1 p2,
             before = p1 ++ Log InfoLevel "=== BEGIN 'Action' run" [] :: p2).
  { eexists (t0 ++ [_; _]), _. rewrite Hbefore.
    rewrite <- !List.app_assoc. cbn [app]. reflexivity. }
  destruct Hp1 as (p1 & p2 & Hp).
  assert (Hq : exists q1 q2 wasSuccess,
             events (deferred uf w (recovered uf w)) (epilogue_state uf w)
             = q1 ++ FINISH w "Action" wasSuccess :: q2).
  { unfold silent_exit in Hsilent. unfold recovered.
    destruct (run_outcome uf w) as [[e|]|v].
    - destruct (deferred_failure uf w e _ He Hsilent) as (_ & _ & ->).
      destruct (emitEndLogs_locked uf w false _ h Hl) as [rest ->]. rewrite Hc.
      eexists [_], _, false. cbn [app]. reflexivity.
    - destruct (deferred_success uf w _ He) as (_ & _ & ->).
      destruct (emitEndLogs_locked uf w true _ h Hl) as [rest ->]. rewrite Hc.
      eexists [], _, true. cbn [app]. reflexivity.
    - destruct (deferred_recovered uf w v (epilogue_state uf w)) as (_ & _ & ->).
      match goal with |- context [emitEndLogs uf w false ?s] =>
        destruct (emitEndLogs_locked uf w false s h Hl) as [rest ->] end.
      cbn [currentCmd set_scopeErr]. rewrite Hc.
      eexists [_], _, false. cbn [app]. reflexivity. }
  destruct Hq as (q1 & q2 & b & Hq).
  rewrite Htr, Hp, Hq.
  destruct (pair_in_trace (Log InfoLevel "=== BEGIN 'Action' run" [])
              (FINISH w "Action" b) p1 p2 q1 q2) as (pre & mid & post & ->).
  exists pre, mid, post, b. reflexivity.
Qed.

Lemma sentinel_or_skip_witness :
  resolved (with_name "app") sync_world = Some "Action"
  /\ In (LockAttempt "/tmp" "app-Action") (trace (RunAndExit (with_name "app") sync_world))
  /\ resolved sync_app bogus_world = None
  /\ forallb quiet (trace (RunAndExit sync_app bogus_world)) = true.
Proof.
  destruct (sentinel_or_skip (with_name "app") sync_world) as [Hsentinel _].
  destruct (sentinel_or_skip sync_app bogus_world) as [_ Hskip].
  cbv zeta in Hsentinel, Hskip.
  destruct (Hsentinel eq_refl eq_refl) as (Hres & _ & Hlock).
  destruct (Hlock eq_refl eq_refl) as [Hin _].
  destruct Hskip as (Hnone & Hq & _).
  - vm_compute. discriminate.
  - intros a [<-|[]]. reflexivity.
  - repeat split; assumption.
Defined.

(** ** Beyond the claims: the rest of the code *)

(** ** More on the sanitiser *)

Lemma replace_runs_fixed (t : string) :
  forall p, clean_from p t = true -> replace_runs p t = t.
Proof.
  induction t as [|c rest IH]; intros p H; [reflexivity|].
  cbn [clean_from] in H. cbn [replace_runs].
  destruct (is_alnum c) eqn:Hc.
  - rewrite (IH false H). reflexivity.
  - destruct (Ascii.eqb c "_") eqn:Hu; [|discriminate].
    apply Ascii.eqb_eq in Hu. subst c.
    apply andb_prop in H as [Hp Hrest]. destruct p; [discriminate|].
    rewrite (IH true Hrest). reflexivity.
Qed.

(** X1: the sanitiser [promStr] returns its input unchanged exactly when
    the input is already a clean token (alphanumerics and underscores,
    no two underscores in a row), and sanitising a second time changes
    nothing. *)
Theorem promStr_fixed_points (s : string) :
  (promStr s = s <-> clean_token s = true)
  /\ promStr (promStr s) = promStr s.
Proof.
  split.
  - split.
    + intros H. rewrite <- H. apply promStr_clean.
    + intros H. apply (replace_runs_fixed s false H).
  - apply (replace_runs_fixed _ false (promStr_clean s)).
Qed.

Lemma replace_runs_alnum (s : string) :
  forall r,
    List.filter is_alnum (list_ascii_of_string (replace_runs r s))
    = List.filter is_alnum (list_ascii_of_string s).
Proof.
  induction s as [|c rest IH]; intros r; [reflexivity|].
  cbn [replace_runs list_ascii_of_string List.filter].
  destruct (is_alnum c) eqn:Hc.
  - cbn [list_ascii_of_string List.filter]. rewrite Hc, IH. reflexivity.
  - destruct r; [apply IH|].
    cbn [list_ascii_of_string List.filter]. rewrite is_alnum_underscore. apply IH.
Qed.

Lemma replace_runs_length (s : string) :
  forall r, String.length (replace_runs r s) <= String.length s.
Proof.
  induction s as [|c rest IH]; intros r; [reflexivity|].
  cbn [replace_runs String.length].
  destruct (is_alnum c).
  - cbn [String.length]. specialize (IH false). lia.
  - destruct r.
    + specialize (IH true). lia.
    + cbn [String.length]. specialize (IH true). lia.
Qed.

(** X2: [promStr] keeps every alphanumeric byte of its input, in the
    same order, and drops or replaces only the others; its output is
    never longer than the input, and is empty only for the empty
    input. *)
Theorem promStr_keeps_alnum (s : string) :
  List.filter is_alnum (list_ascii_of_string (promStr s))
  = List.filter is_alnum (list_ascii_of_string s)
  /\ String.length (promStr s) <= String.length s
  /\ (promStr s = "" <-> s = "").
Proof.
  split; [apply replace_runs_alnum|].
  split; [apply replace_runs_length|].
  split.
  - destruct s as [|c rest]; [reflexivity|].
    unfold promStr. cbn [replace_runs]. destruct (is_alnum c); discriminate.
  - intros ->. reflexivity.
Qed.

(** ** The lock key *)

Lemma list_ascii_of_string_app (a b : string) :
  list_ascii_of_string (a +:+ b) = list_ascii_of_string a ++ list_ascii_of_string b.
Proof. induction a as [|c a IH]; [reflexivity|]. cbn. rewrite IH. reflexivity. Qed.

Lemma clean_token_no_hyphen (t : string) :
  clean_token t = true -> ~ In "-"%char (list_ascii_of_string t).
Proof.
  intros H Hin.
  destruct (clean_from_chars t false H "-"%char Hin) as [Ha|Hu]; discriminate.
Qed.

(** A string cut at its first hyphen is cut in one way only. *)
Lemma hyphen_split_unique (a a' b b' : string) :
  ~ In "-"%char (list_ascii_of_string a) ->
  ~ In "-"%char (list_ascii_of_string a') ->
  a +:+ "-" +:+ b = a' +:+ "-" +:+ b' -> a = a' /\ b = b'.
Proof.
  revert a'. induction a as [|c a IH]; intros [|c' a'] Ha Ha' H.
  - cbn in H. injection H as ->. split; reflexivity.
  - cbn in H. injection H as <- _. exfalso. apply Ha'. left. reflexivity.
  - cbn in H. injection H as -> _. exfalso. apply Ha. left. reflexivity.
  - cbn in H. injection H as -> H.
    destruct (IH a') as [-> ->]; [| |exact H|split; reflexivity].
    + intros Hin. apply Ha. right. exact Hin.
    + intros Hin. apply Ha'. right. exact Hin.
Qed.

(** X3: two runs get the same lock key exactly when their application
    names sanitise to the same token and their command names sanitise
    to the same token; the hyphen between the two tokens keeps the
    parts apart, so no name can take over a part of the other side. *)
Theorem lock_key_collision (uf uf' : UFcli) (cmd cmd' : string) :
  lock_key uf cmd = lock_key uf' cmd'
  <-> promStr (App.Name (AppConfig uf)) = promStr (App.Name (AppConfig uf'))
      /\ promStr cmd = promStr cmd'.
Proof.
  unfold lock_key. split.
  - apply hyphen_split_unique; apply clean_token_no_hyphen, promStr_clean.
  - intros [-> ->]. reflexivity.
Qed.

(** X4: the lock key is safe as a file name: it consists of
    alphanumerics, underscores and hyphens only, it holds no slash and
    no dot, and it is never empty. *)
Theorem lock_key_path_safe (uf : UFcli) (cmd : string) :
  Forall (fun c => is_alnum c = true \/ c = "_"%char \/ c = "-"%char)
         (list_ascii_of_string (lock_key uf cmd))
  /\ ~ In "/"%char (list_ascii_of_string (lock_key uf cmd))
  /\ ~ In "."%char (list_ascii_of_string (lock_key uf cmd))
  /\ lock_key uf cmd <> "".
Proof.
  assert (H : Forall (fun c => is_alnum c = true \/ c = "_"%char \/ c = "-"%char)
                (list_ascii_of_string (lock_key uf cmd))).
  { unfold lock_key. rewrite !list_ascii_of_string_app.
    apply List.Forall_app. split; [|apply List.Forall_app; split].
    - apply List.Forall_forall. intros c Hc.
      destruct (clean_from_chars _ false (promStr_clean _) c Hc) as [Ha|Hu];
        [left; exact Ha | right; left; exact Hu].
    - constructor; [right; right; reflexivity|constructor].
    - apply List.Forall_forall. intros c Hc.
      destruct (clean_from_chars _ false (promStr_clean _) c Hc) as [Ha|Hu];
        [left; exact Ha | right; left; exact Hu]. }
  split; [exact H|].
  rewrite List.Forall_forall in H.
  split; [|split].
  - intros Hin. destruct (H _ Hin) as [?|[?|?]]; discriminate.
  - intros Hin. destruct (H _ Hin) as [?|[?|?]]; discriminate.
  - unfold lock_key. destruct (promStr (App.Name (AppConfig uf))); discriminate.
Qed.

(** ** Command names and aliases *)

Lemma lookup_fold_aliases (n : string) (als : list string) :
  forall (m : gmap string string) (k : string),
    foldl (fun m a => <[a := n]> m) m als !! k
    = if bool_decide (k ∈ als) then Some n else m !! k.
Proof.
  induction als as [|a als IH]; intros m k; cbn [foldl].
  - rewrite bool_decide_eq_false_2 by apply not_elem_of_nil. reflexivity.
  - rewrite IH. destruct (decide (k ∈ als)) as [Hin|Hnin].
    + rewrite !bool_decide_eq_true_2; [reflexivity| |exact Hin].
      apply elem_of_cons. right. exact Hin.
    + rewrite (bool_decide_eq_false_2 _ Hnin).
      destruct (decide (a = k)) as [->|Hne].
      * rewrite lookup_insert_eq, bool_decide_eq_true_2; [reflexivity|].
        apply elem_of_cons. left. reflexivity.
      * rewrite lookup_insert_ne by exact Hne.
        rewrite bool_decide_eq_false_2; [reflexivity|].
        intros [->|H]%elem_of_cons; [apply Hne; reflexivity|apply Hnin; exact H].
Qed.

(** What one command adds to [cmdNames]. *)
Lemma lookup_add_command (m : gmap string string) (c : Command.t) (k : string) :
  add_command m c !! k
  = if bool_decide (Command.Name c = "help") then m !! k
    else if bool_decide (k ∈ Command.Name c :: Command.Aliases c)
         then Some (Command.Name c) else m !! k.
Proof.
  unfold add_command. destruct (bool_decide (Command.Name c = "help")); [reflexivity|].
  rewrite lookup_fold_aliases.
  destruct (decide (k ∈ Command.Aliases c)) as [Hin|Hnin].
  - rewrite !bool_decide_eq_true_2; [reflexivity| |exact Hin].
    apply elem_of_cons. right. exact Hin.
  - rewrite (bool_decide_eq_false_2 _ Hnin).
    destruct (decide (Command.Name c = k)) as [<-|Hne].
    + rewrite lookup_insert_eq, bool_decide_eq_true_2; [reflexivity|].
      apply elem_of_cons. left. reflexivity.
    + rewrite lookup_insert_ne by exact Hne.
      rewrite bool_decide_eq_false_2; [reflexivity|].
      intros [->|H]%elem_of_cons; [apply Hne; reflexivity|apply Hnin; exact H].
Qed.

Lemma fold_commands_sound (cs : list Command.t) :
  forall (m0 : gmap string string) (k n : string),
    foldl add_command m0 cs !! k = Some n ->
    m0 !! k = Some n
    \/ exists c, c ∈ cs /\ Command.Name c <> "help" /\ Command.Name c = n
                 /\ k ∈ Command.Name c :: Command.Aliases c.
Proof.
  induction cs as [|c cs IH]; intros m0 k n H; cbn [foldl] in H; [left; exact H|].
  destruct (IH _ _ _ H) as [H0|(c' & Hin & Hh & Hn & Hk)].
  - rewrite lookup_add_command in H0.
    destruct (bool_decide (Command.Name c = "help")) eqn:Hhelp; [left; exact H0|].
    apply bool_decide_eq_false in Hhelp.
    destruct (bool_decide (k ∈ Command.Name c :: Command.Aliases c)) eqn:Hk;
      [|left; exact H0].
    apply bool_decide_eq_true in Hk. injection H0 as <-.
    right. exists c. split; [apply elem_of_cons; left; reflexivity|]. auto.
  - right. exists c'. split; [apply elem_of_cons; right; exact Hin|]. auto.
Qed.

Lemma fold_commands_mono (cs : list Command.t) :
  forall (m0 : gmap string string) (k : string),
    is_Some (m0 !! k) -> is_Some (foldl add_command m0 cs !! k).
Proof.
  induction cs as [|c cs IH]; intros m0 k H; cbn [foldl]; [exact H|].
  apply IH. rewrite lookup_add_command.
  destruct (bool_decide _); [exact H|]. destruct (bool_decide _); [eauto|exact H].
Qed.

Lemma fold_commands_complete (cs : list Command.t) :
  forall (m0 : gmap string string) (c : Command.t) (k : string),
    c ∈ cs -> Command.Name c <> "help" ->
    k ∈ Command.Name c :: Command.Aliases c ->
    is_Some (foldl add_command m0 cs !! k).
Proof.
  induction cs as [|c' cs IH]; intros m0 c k Hin Hh Hk; [inversion Hin|].
  cbn [foldl]. apply elem_of_cons in Hin as [->|Hin].
  - apply fold_commands_mono. rewrite lookup_add_command.
    rewrite (bool_decide_eq_false_2 _ Hh), (bool_decide_eq_true_2 _ Hk). eauto.
  - eapply IH; eassumption.
Qed.

Lemma key_of_command (c : Command.t) (k : string) :
  k ∈ Command.Name c :: Command.Aliases c
  <-> k = Command.Name c \/ In k (Command.Aliases c).
Proof. rewrite elem_of_cons, list_elem_of_In. reflexivity. Qed.



Lemma fold_commands_help (cs : list Command.t) :
  (forall c, c ∈ cs -> Command.Name c = "help") ->
  forall m0 : gmap string string, foldl add_command m0 cs = m0.
Proof.
  induction cs as [|c cs IH]; intros Hall m0; [reflexivity|].
  cbn [foldl]. unfold add_command at 2.
  rewrite bool_decide_eq_true_2 by (apply Hall, elem_of_cons; left; reflexivity).
  apply IH. intros c' Hc'. apply Hall, elem_of_cons. right. exact Hc'.
Qed.

Lemma cmdNames_empty_help (cs : list Command.t) :
  size (build_cmdNames cs) = 0 -> forall c, In c cs -> Command.Name c = "help".
Proof.
  intros Hsize c Hin.
  destruct (decide (Command.Name c = "help")) as [H|H]; [exact H|exfalso].
  apply map_size_empty_iff in Hsize.
  assert (Hs : is_Some (build_cmdNames cs !! Command.Name c)).
  { apply (fold_commands_complete cs ∅ c).
    - apply list_elem_of_In. exact Hin.
    - exact H.
    - apply elem_of_cons. left. reflexivity. }
  rewrite Hsize, lookup_empty in Hs. destruct Hs as [? Hs]. discriminate.
Qed.

(** X6: the command table is empty exactly when the application has
    no command apart from [help]: this is the case in which the hook
    takes the command name ["Action"]. *)
Theorem no_commands_iff (cs : list Command.t) :
  size (build_cmdNames cs) = 0 <-> forall c, In c cs -> Command.Name c = "help".
Proof.
  split; [apply cmdNames_empty_help|].
  intros Hall. unfold build_cmdNames. rewrite fold_commands_help.
  - apply map_size_empty.
  - intros c Hc. apply Hall, list_elem_of_In. exact Hc.
Qed.

(** ** The scan of the raw arguments *)

Lemma scan_args_fst (m : gmap string string) (args : list string) :
  forall cur n,
    fst (scan_args m args cur) = n ->
    n = cur \/ exists a, In a args /\ m !! a = Some n.
Proof.
  induction args as [|a rest IH]; intros cur n H; cbn [scan_args] in H.
  - left. symmetry. exact H.
  - destruct (is_help_flag a); [left; symmetry; exact H|].
    destruct (bool_decide (cur = "")) eqn:Hcur; cbn [negb] in H.
    + apply bool_decide_eq_true in Hcur. subst cur.
      destruct (IH _ _ H) as [Hn|(b & Hb & Hm)].
      * destruct (m !! a) as [v|] eqn:Hma; cbn [default] in Hn.
        -- right. exists a. split; [left; reflexivity|]. rewrite Hma, Hn. reflexivity.
        -- left. exact Hn.
      * right. exists b. split; [right; exact Hb|exact Hm].
    + destruct (IH _ _ H) as [Hn|(b & Hb & Hm)]; [left; exact Hn|].
      right. exists b. split; [right; exact Hb|exact Hm].
Qed.

Lemma scan_args_skip (m : gmap string string) (pre rest : list string) :
  existsb is_help_flag pre = false ->
  (forall b, In b pre -> default "" (m !! b) = "") ->
  scan_args m (pre ++ rest) "" = scan_args m rest "".
Proof.
  induction pre as [|b pre IH]; intros Hhelp Hno; [reflexivity|].
  cbn [existsb] in Hhelp. apply orb_false_elim in Hhelp as [Hb Hpre].
  cbn [app scan_args]. rewrite Hb.
  change (negb (bool_decide ("" = ""))) with false. cbv iota.
  rewrite (Hno b (or_introl eq_refl)).
  apply IH; [exact Hpre|]. intros c Hc. apply Hno. right. exact Hc.
Qed.

Lemma scan_args_keep (m : gmap string string) (args : list string) (n : string) :
  n <> "" -> existsb is_help_flag args = false -> scan_args m args n = (n, false).
Proof.
  intros Hn. induction args as [|a rest IH]; intros Hhelp; [reflexivity|].
  cbn [existsb] in Hhelp. apply orb_false_elim in Hhelp as [Ha Hrest].
  cbn [scan_args]. rewrite Ha, (bool_decide_eq_false_2 _ Hn). cbn [negb].
  apply IH. exact Hrest.
Qed.

(** X7: when the hook settles on a command name, no argument of the
    command line is a help flag, and the name is either ["Action"] for
    an application without commands of its own, or the non-empty name
    of a registered command, other than [help], that an argument
    spells by name or by alias. *)
Theorem resolved_is_canonical (uf : UFcli) (w : World) (cmd : string) :
  resolved uf w = Some cmd ->
  existsb is_help_flag (drop 1 (os_Args w)) = false
  /\ ((cmd = "Action"
       /\ forall c, In c (App.Commands (AppConfig uf)) -> Command.Name c = "help")
      \/ (cmd <> ""
          /\ exists c a,
               In c (App.Commands (AppConfig uf))
               /\ Command.Name c <> "help" /\ Command.Name c = cmd
               /\ In a (drop 1 (os_Args w))
               /\ (a = cmd \/ In a (Command.Aliases c)))).
Proof.
  unfold resolved. cbv zeta. rewrite scan_args_help.
  set (m := build_cmdNames (App.Commands (AppConfig uf))).
  destruct (existsb is_help_flag (drop 1 (os_Args w))); [discriminate|].
  destruct (bool_decide (size m = 0)) eqn:Hsize.
  - intros [= <-]. split; [reflexivity|]. left. split; [reflexivity|].
    apply cmdNames_empty_help. apply bool_decide_eq_true in Hsize. exact Hsize.
  - destruct (bool_decide (fst (scan_args m (drop 1 (os_Args w)) "") = "")) eqn:He;
      [discriminate|].
    apply bool_decide_eq_false in He. intros [= Hcmd].
    split; [reflexivity|]. right. rewrite <- Hcmd. split; [exact He|].
    destruct (scan_args_fst m (drop 1 (os_Args w)) "" _ eq_refl)
      as [H|(a & Ha & Hm)]; [contradiction|].
    destruct (fold_commands_sound _ ∅ a _ Hm) as [H0|(c & Hc & Hh & Hn & Hk)].
    { rewrite lookup_empty in H0. discriminate. }
    exists c, a. apply list_elem_of_In in Hc. apply key_of_command in Hk.
    rewrite Hn in Hk. auto.
Qed.

Lemma resolved_is_canonical_witness :
  resolved sync_app sync_world = Some "sync"
  /\ existsb is_help_flag (drop 1 (os_Args sync_world)) = false.
Proof.
  split; [reflexivity|].
  apply (resolved_is_canonical sync_app sync_world "sync"). reflexivity.
Defined.

(** X8: on a command line without a help flag, the first argument
    that the command table knows decides the command: arguments before
    it that name nothing (flags and their values) are skipped, the
    arguments after it change nothing, and an alias is resolved to the
    name of its command. *)
Theorem first_match_wins (uf : UFcli) (w : World)
    (prog a n : string) (pre post : list string) :
  os_Args w = prog :: pre ++ a :: post ->
  existsb is_help_flag (pre ++ a :: post) = false ->
  (forall b, In b pre ->
     default "" (build_cmdNames (App.Commands (AppConfig uf)) !! b) = "") ->
  build_cmdNames (App.Commands (AppConfig uf)) !! a = Some n ->
  n <> "" ->
  resolved uf w = Some n.
Proof.
  intros Hargs Hhelp Hpre Ha Hn.
  unfold resolved. cbv zeta. rewrite Hargs.
  change (drop 1 (prog :: pre ++ a :: post)) with (pre ++ a :: post).
  set (m := build_cmdNames (App.Commands (AppConfig uf))) in *.
  rewrite scan_args_help, Hhelp.
  rewrite List.existsb_app in Hhelp. apply orb_false_elim in Hhelp as [Hh1 Hh2].
  rewrite (scan_args_skip m pre (a :: post) Hh1 Hpre).
  cbn [existsb] in Hh2. apply orb_false_elim in Hh2 as [Hha Hhpost].
  cbn [scan_args]. rewrite Hha.
  change (negb (bool_decide ("" = ""))) with false. cbv iota.
  rewrite Ha. cbn [default]. unfold id.
  rewrite (scan_args_keep m post n Hn Hhpost). cbn [fst].
  rewrite bool_decide_eq_false_2.
  - rewrite (bool_decide_eq_false_2 _ Hn). reflexivity.
  - intros Hsize. apply map_size_empty_iff in Hsize.
    rewrite Hsize, lookup_empty in Ha. discriminate.
Qed.

Lemma first_match_wins_witness :
  os_Args alias_world = "app" :: ["-v"] ++ "s" :: ["x"]
  /\ resolved sync_app alias_world = Some "sync".
Proof.
  split; [reflexivity|].
  apply (first_match_wins sync_app alias_world "app" "s" "sync" ["-v"] ["x"]).
  - reflexivity.
  - reflexivity.
  - intros b [<-|[]]. reflexivity.
  - reflexivity.
  - discriminate.
Defined.

(** ** [cmn.WrErr] *)

Lemma Unwrap_n_outer (n : nat) :
  forall x y z, Unwrap_n n x = Some y -> Unwrap y = Some z -> Unwrap_n (S n) x = Some z.
Proof.
  induction n as [|n IH]; intros x y z Hn Hy.
  - cbn in Hn. injection Hn as ->. cbn. rewrite Hy. reflexivity.
  - cbn [Unwrap_n] in Hn |- *. destruct (Unwrap x) as [inner|]; [|discriminate].
    apply (IH inner y z Hn Hy).
Qed.

Lemma WrErr_chain_nil (frames : list string) : WrErr_chain frames None = None.
Proof. induction frames as [|f fs IH]; [reflexivity|exact IH]. Qed.

(** X9: [cmn.WrErr] along a call chain.  A nil error stays nil however
    often it is wrapped.  A non-nil error wrapped at [n] call sites
    keeps its message, is still recognised as a lock error by
    [errors.As], prints in detail as the original followed by the
    frames in wrapping order, and gives back the original after [n]
    calls of [Unwrap]. *)
Theorem WrErr_chain_transparent (frames : list string) (e : error) :
  WrErr_chain frames None = None
  /\ exists wrapped,
       WrErr_chain frames (Some e) = Some wrapped
       /\ Error wrapped = Error e
       /\ errors_As_LockedError wrapped = errors_As_LockedError e
       /\ FormatError wrapped = FormatError e +:+ concat_frames frames
       /\ Unwrap_n (List.length frames) wrapped = Some e.
Proof.
  split; [apply WrErr_chain_nil|].
  revert e. induction frames as [|f fs IH]; intros e.
  - exists e. repeat split; try reflexivity.
    cbn. induction (FormatError e) as [|c s IHs]; [reflexivity|].
    cbn. rewrite <- IHs. reflexivity.
  - destruct (IH (cmnErr e f)) as (wrapped & Hw & Herr & Has & Hfmt & Hun).
    exists wrapped. split; [exact Hw|]. split; [exact Herr|]. split; [exact Has|].
    split.
    + rewrite Hfmt. cbn [FormatError concat_frames foldr].
      apply append_assoc.
    + cbn [List.length].
      assert (Hshift : forall n x y, Unwrap_n n x = Some y ->
                 forall z, Unwrap y = Some z -> Unwrap_n (S n) x = Some z)
        by (intros n x y Hn z Hz; exact (Unwrap_n_outer n x y z Hn Hz)).
      apply (Hshift _ _ _ Hun). reflexivity.
Qed.

(** ** [cmn.SortedMapKeys] *)

Lemma compare_as_OT (a b : string) : String.compare a b = String_as_OT.compare a b.
Proof.
  revert b. induction a as [|x a IH]; intros [|y b]; reflexivity.
Qed.

Lemma string_le_spec (a b : string) :
  string_le a b <-> String_as_OT.lt a b \/ a = b.
Proof.
  unfold string_le, String.leb. rewrite compare_as_OT.
  destruct (String_as_OT.compare_spec a b) as [H|H|H].
  - split; [right; exact H|reflexivity].
  - split; [left; exact H|reflexivity].
  - split; [discriminate|].
    intros [H'|H'].
    + exfalso. apply (StrictOrder_Irreflexive a). etransitivity; eassumption.
    + subst b. exfalso. apply (StrictOrder_Irreflexive a). exact H.
Qed.

#[local] Instance string_le_trans : Transitive string_le.
Proof.
  intros a b c Hab Hbc. apply string_le_spec in Hab, Hbc. apply string_le_spec.
  destruct Hab as [Hab| ->]; [|exact Hbc].
  destruct Hbc as [Hbc| <-]; [|left; exact Hab].
  left. etransitivity; eassumption.
Qed.

#[local] Instance string_le_total : Total string_le.
Proof. intros a b. apply String.leb_total. Qed.

#[local] Instance string_le_antisym : AntiSymm (=) string_le.
Proof. intros a b. apply String.leb_antisym. Qed.

#[local] Instance string_le_refl : Reflexive string_le.
Proof. intros a. apply string_le_spec. right. reflexivity. Qed.

(** The append loop collects the rendered keys in iteration order. *)
Lemma append_loop (keys : list MapKey) :
  forall acc,
    foldl (fun avail k => avail ++ [Value_String k]) acc keys
    = acc ++ map Value_String keys.
Proof.
  induction keys as [|k keys IH]; intros acc; cbn [foldl map].
  - rewrite List.app_nil_r. reflexivity.
  - rewrite IH, <- List.app_assoc. reflexivity.
Qed.

Lemma SortedMapKeys_map (keys : list MapKey) :
  SortedMapKeys (MapValue keys) = inr (sort_Strings (map Value_String keys)).
Proof. cbn [SortedMapKeys]. rewrite append_loop. reflexivity. Qed.

Lemma sort_Strings_unique (l1 l2 : list string) :
  l1 ≡ₚ l2 -> sort_Strings l1 = sort_Strings l2.
Proof.
  intros Hp. unfold sort_Strings.
  apply (StronglySorted_unique string_le).
  - apply StronglySorted_merge_sort; apply _.
  - apply StronglySorted_merge_sort; apply _.
  - rewrite !merge_sort_Permutation. exact Hp.
Qed.

(** X10: for a map with string keys, in whatever order the runtime
    lists them, [SortedMapKeys] returns without panic the keys of the
    map in ascending byte order: each key once, nothing else, as many
    as the map has entries. *)
Theorem SortedMapKeys_string_map {V} (m : gmap string V) (order : list string) :
  keys_in_order m order ->
  exists l,
    SortedMapKeys (MapValue (StringKey <$> order)) = inr l
    /\ StronglySorted string_le l
    /\ NoDup l
    /\ (forall k, k ∈ l <-> is_Some (m !! k))
    /\ List.length l = size m
    /\ l = sort_Strings (elements (dom m)).
Proof.
  unfold keys_in_order. intros Hp.
  exists (sort_Strings order).
  assert (Hperm : sort_Strings order ≡ₚ elements (dom m)).
  { unfold sort_Strings. rewrite merge_sort_Permutation. exact Hp. }
  split.
  { rewrite SortedMapKeys_map. do 2 f_equal.
    rewrite <- list_fmap_compose. apply list_fmap_id. }
  split; [apply StronglySorted_merge_sort; apply _|].
  split; [rewrite Hperm; apply NoDup_elements|].
  split.
  { intros k. rewrite Hperm, elem_of_elements, elem_of_dom. reflexivity. }
  split.
  { rewrite Hperm. rewrite <- size_dom. reflexivity. }
  apply sort_Strings_unique. exact Hp.
Qed.

Lemma SortedMapKeys_string_map_witness :
  exists l,
    SortedMapKeys (MapValue (StringKey <$> elements (dom sample_map))) = inr l
    /\ l = sort_Strings (elements (dom sample_map)).
Proof.
  destruct (SortedMapKeys_string_map sample_map (elements (dom sample_map)))
    as (l & Hl & _ & _ & _ & _ & Hs).
  - unfold keys_in_order. reflexivity.
  - exists l. split; assumption.
Defined.

(** X11: the result of [SortedMapKeys] does not depend on the order
    in which the runtime iterates over the map. *)
Theorem SortedMapKeys_order_free (keys keys' : list MapKey) :
  keys ≡ₚ keys' ->
  SortedMapKeys (MapValue keys) = SortedMapKeys (MapValue keys').
Proof.
  intros Hp. rewrite !SortedMapKeys_map. f_equal.
  apply sort_Strings_unique. apply Permutation_map. exact Hp.
Qed.

Lemma SortedMapKeys_order_free_witness :
  SortedMapKeys (MapValue [StringKey "beta"; StringKey "alpha"])
  = SortedMapKeys (MapValue [StringKey "alpha"; StringKey "beta"]).
Proof.
  apply SortedMapKeys_order_free. apply perm_swap.
Defined.

(** X12: the edges of [SortedMapKeys].  A value that is no map makes it
    panic with ["input type not a map: "] and the value; an empty map
    gives an empty slice; and for a map whose keys are not strings it
    does not fail but returns the same placeholder ["<T Value>"] once
    per key, so the keys are lost. *)
Theorem SortedMapKeys_edges (typ printed : string) (keys : list MapKey) :
  SortedMapKeys (NotMap printed) = inl ("input type not a map: " +:+ printed)
  /\ SortedMapKeys (MapValue []) = inr []
  /\ (Forall (fun k => k = OtherKey typ) keys ->
      SortedMapKeys (MapValue keys)
      = inr (replicate (List.length keys) ("<" +:+ typ +:+ " Value>"))).
Proof.
  split; [reflexivity|]. split; [reflexivity|].
  intros Hall. rewrite SortedMapKeys_map. f_equal.
  assert (Hmap : map Value_String keys
                 = replicate (List.length keys) ("<" +:+ typ +:+ " Value>")).
  { induction Hall as [|k keys -> _ IH]; [reflexivity|].
    cbn [map List.length replicate Value_String]. rewrite IH. reflexivity. }
  rewrite Hmap. unfold sort_Strings.
  apply (StronglySorted_unique string_le).
  - apply StronglySorted_merge_sort; apply _.
  - generalize (List.length keys). intros n. induction n as [|n IH]; cbn [replicate].
    + constructor.
    + constructor; [exact IH|]. apply List.Forall_forall.
      intros x Hx. apply list_elem_of_In, elem_of_replicate in Hx as [-> _].
      reflexivity.
  - apply merge_sort_Permutation.
Qed.

Lemma SortedMapKeys_edges_witness :
  SortedMapKeys (MapValue [OtherKey "int"; OtherKey "int"])
  = inr ["<int Value>"; "<int Value>"].
Proof.
  destruct (SortedMapKeys_edges "int" "" [OtherKey "int"; OtherKey "int"]) as (_ & _ & H).
  apply H. repeat constructor.
Defined.

(** ** The shape of a trace *)

Section Shape.

Variable uf : UFcli.
Variable w : World.

Lemma cleanup_signal_point (p : SignalTiming) (st : RunState) :
  forallb is_cleanup (events (signal_point uf w p) st) = true.
Proof.
  assert (H : sat (inv_rel (fun _ => True) is_cleanup) (signal_point uf w p)).
  { unfold signal_point, signal_watcher. inv_auto fail. }
  apply (H st Logic.I).
Qed.

Lemma never_signal (p : SignalTiming) (st : RunState) :
  signal w = SigNever -> signal_point uf w p st = (tt, st, []).
Proof.
  intros H. unfold signal_point, fires_at. rewrite H. reflexivity.
Qed.

(** The events of the engine: the hook's, between what the watcher may
    have done before and after it. *)
Lemma RunContext_events :
  exists s0 s1,
    events (RunContext uf w) initial =
      s0 ++ (if engine_calls_Before w then hook_events uf w else []) ++ s1
    /\ forallb is_cleanup s0 = true /\ forallb is_cleanup s1 = true
    /\ (signal w = SigNever -> s0 = [] /\ s1 = []).
Proof.
  unfold RunContext. mrun.
  destruct (signal_point_fresh uf w SigBeforeHook initial) as (Hc0 & _ & _).
  set (s0 := snd (fst (signal_point uf w SigBeforeHook initial))) in *.
  cbn in Hc0.
  exists (events (signal_point uf w SigBeforeHook) initial).
  destruct (engine_calls_Before w); mrun.
  - destruct (Before_fresh uf w s0 Hc0) as (Hv & Hev & _).
    rewrite Hv, Hev.
    destruct (hook_error uf w) as [e|]; mrun.
    + exists []. rewrite List.app_nil_r.
      split; [reflexivity|]. split; [apply cleanup_signal_point|].
      split; [reflexivity|]. intros Hs. rewrite (never_signal _ _ Hs). split; reflexivity.
    + eexists. rewrite List.app_nil_r. split; [reflexivity|].
      split; [apply cleanup_signal_point|]. split; [apply cleanup_signal_point|].
      intros Hs. rewrite !(never_signal _ _ Hs). split; reflexivity.
  - eexists. rewrite List.app_nil_r. split; [reflexivity|].
    split; [apply cleanup_signal_point|]. split; [apply cleanup_signal_point|].
    intros Hs. rewrite !(never_signal _ _ Hs). split; reflexivity.
Qed.

Lemma trace_shape :
  exists s0 s1 s2,
    trace (RunAndExit uf w) =
      s0 ++ (if engine_calls_Before w then hook_events uf w else []) ++ s1 ++ s2
      ++ events (deferred uf w (recovered uf w)) (epilogue_state uf w)
    /\ forallb is_cleanup s0 = true /\ forallb is_cleanup s1 = true
    /\ forallb is_cleanup s2 = true
    /\ (signal w = SigNever -> s0 = [] /\ s1 = [] /\ s2 = []).
Proof.
  destruct (RunAndExit_split uf w) as (_ & _ & before & Htr & Hbefore).
  destruct RunContext_events as (s0 & s1 & Hev & H0 & H1 & Hnever).
  rewrite Hev in Hbefore.
  match type of Hbefore with _ = _ ++ ?x => set (s2 := x) in * end.
  exists s0, s1, s2. split.
  { rewrite Htr, Hbefore. rewrite <- !List.app_assoc. reflexivity. }
  split; [exact H0|]. split; [exact H1|].
  split; [subst s2; apply cleanup_signal_point|].
  intros Hs. destruct (Hnever Hs) as [-> ->].
  subst s2. rewrite (never_signal _ _ Hs). repeat split; reflexivity.
Qed.

(** Filtering a trace for events that the watcher and the shutdown
    sequence never emit. *)
Lemma filter_cleanup (p : Event -> bool) (l : list Event) :
  (forall e, is_cleanup e = true -> p e = false) ->
  forallb is_cleanup l = true -> List.filter p l = [].
Proof.
  intros Hp. induction l as [|e l IH]; [reflexivity|].
  cbn [forallb List.filter]. intros H. apply andb_prop in H as [He Hl].
  rewrite (Hp e He). apply IH. exact Hl.
Qed.

Lemma trace_filter (p : Event -> bool) :
  (forall e, is_cleanup e = true -> p e = false) ->
  List.filter p (trace (RunAndExit uf w)) =
  List.filter p (if engine_calls_Before w then hook_events uf w else [])
  ++ List.filter p (events (deferred uf w (recovered uf w)) (epilogue_state uf w)).
Proof.
  intros Hp.
  destruct trace_shape as (s0 & s1 & s2 & -> & H0 & H1 & H2 & _).
  rewrite !List.filter_app.
  rewrite (filter_cleanup p s0 Hp H0), (filter_cleanup p s1 Hp H1),
          (filter_cleanup p s2 Hp H2).
  reflexivity.
Qed.

Lemma filter_none (p : Event -> bool) (l : list Event) :
  forallb (fun e => negb (p e)) l = true -> List.filter p l = [].
Proof.
  induction l as [|e l IH]; [reflexivity|].
  cbn [forallb List.filter]. intros H. apply andb_prop in H as [He Hl].
  apply negb_true_iff in He. rewrite He. apply IH. exact Hl.
Qed.

Lemma cleanup_not_hook (e : Event) : is_cleanup e = true -> is_hook_event e = false.
Proof.
  destruct e as [[| |] msg args| | | | | | | | |]; cbn; try discriminate; reflexivity.
Qed.

Lemma deferred_no_hook_events (r : option string) (st : RunState) :
  List.filter is_hook_event (events (deferred uf w r) st) = [].
Proof.
  apply filter_none.
  assert (H : sat (inv_rel (fun _ => True) (fun e => negb (is_hook_event e)))
                  (deferred uf w r)).
  { unfold deferred, emitEndLogs. inv_auto fail. }
  apply (H st Logic.I).
Qed.

End Shape.

(** X13: in every run the events of the hook (loading the
    configuration, taking the lock, the BEGIN line, the call of
    [GlobalInit]) occur at most once each and in this order, and a later
    one only after all the earlier ones: the BEGIN line names the
    command whose lock was asked for. *)
Theorem hook_events_in_order (uf : UFcli) (w : World) :
  exists (n : nat) (cmd : string),
    List.filter is_hook_event (trace (RunAndExit uf w)) =
    take n [ LoadConfig (TOMLPath uf);
             LockAttempt (os_TempDir w) (lock_key uf cmd);
             Log InfoLevel ("=== BEGIN '" +:+ cmd +:+ "' run") [];
             CallGlobalInit ].
Proof.
  rewrite (trace_filter uf w is_hook_event cleanup_not_hook).
  rewrite deferred_no_hook_events, List.app_nil_r.
  destruct (engine_calls_Before w); [|exists 0, ""; reflexivity].
  unfold hook_events.
  destruct (toml_load w); [exists 1, ""; reflexivity|].
  destruct (resolved uf w) as [cmd|]; [|exists 1, ""; reflexivity].
  destruct (snd (fslock_Lock w (os_TempDir w) (lock_key uf cmd)));
    [exists 2, cmd; reflexivity|].
  destruct (GlobalInit uf); [exists 4, cmd|exists 3, cmd]; reflexivity.
Qed.

(** ** FINISH lines and the grace delay *)

Section Epilogue.

Variable uf : UFcli.
Variable w : World.

Lemma cleanup_not_FINISH (e : Event) : is_cleanup e = true -> is_FINISH e = false.
Proof.
  destruct e as [[| |] msg [|a args]| | | | | | | | |]; cbn -[has_prefix];
    try discriminate; try reflexivity.
  destruct msg as [|c msg]; [discriminate|].
  cbn [has_prefix]. intros H. apply orb_prop in H as [H|H];
    apply andb_prop in H as [H _]; apply Ascii.eqb_eq in H; subst c; reflexivity.
Qed.

Lemma emitEndLogs_FINISH (b : bool) (st : RunState) :
  List.filter is_FINISH (events (emitEndLogs uf w b) st) =
  match currentCmdLock st with
  | Some _ => [FINISH w (currentCmd st) b]
  | None => []
  end.
Proof.
  unfold emitEndLogs, FINISH. mrun.
  destruct (currentCmdLock st); mrun; [|reflexivity].
  destruct (bool_decide (url (promPushConf st) = "")); mrun;
    [destruct b; reflexivity|].
  destruct (push_result w); destruct b; reflexivity.
Qed.

Lemma shutdown_no_FINISH (b : bool) (st : RunState) :
  List.filter is_FINISH (events (shutdown uf b) st) = [].
Proof.
  apply filter_none.
  apply (forallb_weaken not_record); [|apply shutdown_not_record].
  intros e H. unfold not_record in H. apply negb_true_iff in H.
  apply orb_false_elim in H as [H _]. apply orb_false_elim in H as [H _].
  rewrite H. reflexivity.
Qed.

Lemma keep_cmd_deferred (r : option string) :
  sat (keep_rel currentCmd) (deferred uf w r).
Proof.
  unfold deferred.
  keep_auto ltac:(intros ?; unfold keep_rel; rewrite emitEndLogs_state; reflexivity).
Qed.

Lemma hook_no_FINISH :
  List.filter is_FINISH (if engine_calls_Before w then hook_events uf w else []) = [].
Proof.
  destruct (engine_calls_Before w); [|reflexivity]. unfold hook_events.
  destruct (toml_load w); [reflexivity|].
  destruct (resolved uf w); [|reflexivity].
  destruct (snd _); [reflexivity|].
  destruct (GlobalInit uf); reflexivity.
Qed.

Lemma FINISH_lines :
  List.filter is_FINISH (trace (RunAndExit uf w)) =
  match currentCmdLock (final (RunAndExit uf w)) with
  | Some _ =>
      if silent_exit uf w then []
      else [FINISH w (currentCmd (final (RunAndExit uf w)))
              (bool_decide (code (RunAndExit uf w) = 0%Z))]
  | None => []
  end.
Proof.
  rewrite (trace_filter uf w is_FINISH cleanup_not_FINISH), hook_no_FINISH.
  cbn [app].
  destruct (RunAndExit_split uf w) as (_ & -> & _).
  rewrite (keep_lock_deferred uf w (recovered uf w) (epilogue_state uf w)).
  rewrite (keep_cmd_deferred (recovered uf w) (epilogue_state uf w)).
  rewrite code_spec. unfold silent_exit, recovered.
  destruct (epilogue_fresh uf w) as (He & _).
  destruct (run_outcome uf w) as [[e|]|v].
  - destruct (errors_As_LockedError e && negb (stderr_is_terminal w)) eqn:Hs.
    + apply andb_prop in Hs as [Ha Ht]. apply negb_true_iff in Ht.
      destruct (deferred_silent uf w e _ He Ha Ht) as (_ & _ & ->).
      rewrite shutdown_no_FINISH. destruct (currentCmdLock _); reflexivity.
    + destruct (deferred_failure uf w e _ He Hs) as (_ & _ & ->).
      cbn [List.filter is_FINISH]. rewrite List.filter_app.
      rewrite emitEndLogs_FINISH, shutdown_no_FINISH, List.app_nil_r. reflexivity.
  - destruct (deferred_success uf w _ He) as (_ & _ & ->).
    rewrite List.filter_app.
    rewrite emitEndLogs_FINISH, shutdown_no_FINISH, List.app_nil_r. reflexivity.
  - destruct (deferred_recovered uf w v (epilogue_state uf w)) as (_ & _ & ->).
    cbn [List.filter is_FINISH]. rewrite List.filter_app.
    rewrite emitEndLogs_FINISH, shutdown_no_FINISH, List.app_nil_r. reflexivity.
Qed.

End Epilogue.

(** X14: a run logs at most one FINISH line.  It logs one exactly when
    the lock handle is set at the end of the run and the run does not
    take the silent exit for a lock held elsewhere; the line names the
    command of the run, and is at info level exactly when the exit code
    is 0. *)
Theorem FINISH_exactly_once (uf : UFcli) (w : World) :
  List.filter is_FINISH (trace (RunAndExit uf w)) =
    match currentCmdLock (final (RunAndExit uf w)) with
    | Some _ =>
        if silent_exit uf w then []
        else [FINISH w (currentCmd (final (RunAndExit uf w)))
                (bool_decide (code (RunAndExit uf w) = 0%Z))]
    | None => []
    end
  /\ List.length (List.filter is_FINISH (trace (RunAndExit uf w))) <= 1
  /\ (forall lvl msg args,
        In (Log lvl msg args) (trace (RunAndExit uf w)) ->
        is_FINISH (Log lvl msg args) = true ->
        (lvl = InfoLevel <-> code (RunAndExit uf w) = 0%Z)).
Proof.
  pose proof (FINISH_lines uf w) as H.
  split; [exact H|]. split.
  - rewrite H. destruct (currentCmdLock _); [|cbn; lia].
    destruct (silent_exit uf w); cbn; lia.
  - intros lvl msg args Hin Hfin.
    assert (Hf : In (Log lvl msg args) (List.filter is_FINISH (trace (RunAndExit uf w))))
      by (apply List.filter_In; split; assumption).
    rewrite H in Hf. destruct (currentCmdLock _); [|destruct Hf].
    destruct (silent_exit uf w); [destruct Hf|].
    destruct Hf as [Hf|[]]. clear Hin Hfin H.
    remember (code (RunAndExit uf w)) as exit eqn:Hexit. clear Hexit.
    assert (Hl : lvl = if bool_decide (exit = 0%Z) then InfoLevel else WarnLevel)
      by (unfold FINISH in Hf; congruence).
    rewrite Hl. clear Hf Hl.
    destruct (bool_decide (exit = 0%Z)) eqn:Hc.
    + apply bool_decide_eq_true in Hc. split; [intros _; exact Hc|reflexivity].
    + apply bool_decide_eq_false in Hc. split; [discriminate|contradiction].
Qed.

(** ** Invariants with the hook taken at its fresh state *)

Section RunInv.

Variable uf : UFcli.
Variable w : World.
Variable I : RunState -> Prop.
Variable ok : Event -> bool.

Hypothesis I_signal : forall p, sat (inv_rel I ok) (signal_point uf w p).
Hypothesis I_deferred : forall r, sat (inv_rel I ok) (deferred uf w r).
Hypothesis I_err : forall e st, I st -> I (set_scopeErr e st).
Hypothesis I_start :
  I (state (signal_point uf w SigBeforeHook) initial)
  /\ forallb ok (events (signal_point uf w SigBeforeHook) initial) = true.
Hypothesis I_hook :
  engine_calls_Before w = true ->
  forall st, currentCmd st = "" -> I st ->
    I (state (Before uf w) st) /\ forallb ok (events (Before uf w) st) = true.

Lemma run_inv :
  forallb ok (trace (RunAndExit uf w)) = true /\ I (final (RunAndExit uf w)).
Proof.
  assert (Hbody : sat (inv_rel I ok)
            (signal_point uf w SigDuringBody ;;; ret (engine_body w))).
  { sat_auto inv_rel_refl inv_rel_trans ltac:(apply I_signal). }
  assert (Hrest : forall out : Outcome, sat (inv_rel I ok)
            (r <- match out with
                  | Returns err => modify (set_scopeErr err) ;;; ret None
                  | Panics v => ret (Some v)
                  end ;;
             signal_point uf w SigBeforeEpilogue ;;; deferred uf w r)).
  { intros out.
    sat_auto inv_rel_refl inv_rel_trans
      ltac:(first [ apply I_signal | apply I_deferred
                  | apply inv_modify; intros ? ?; apply I_err; assumption ]). }
  assert (Hctx : I (state (RunContext uf w) initial)
                 /\ forallb ok (events (RunContext uf w) initial) = true).
  { unfold RunContext. rewrite state_bind, events_bind.
    destruct I_start as [HI0 Hok0].
    destruct (signal_point_fresh uf w SigBeforeHook initial) as (Hc0 & _ & _).
    cbn [currentCmd initial] in Hc0.
    set (s0 := snd (fst (signal_point uf w SigBeforeHook initial))) in *.
    rewrite List.forallb_app, Hok0. cbn [andb].
    destruct (engine_calls_Before w).
    - rewrite state_bind, events_bind.
      destruct (I_hook eq_refl s0 Hc0 HI0) as [HI1 Hok1].
      rewrite List.forallb_app, Hok1. cbn [andb].
      destruct (fst (fst (Before uf w s0))) as [e|].
      + split; [exact HI1|reflexivity].
      + apply (Hbody _ HI1).
    - apply (Hbody _ HI0). }
  destruct Hctx as [HI Hok].
  unfold RunAndExit, RunAndExit_body. cbn [trace final].
  rewrite state_bind, events_bind, List.forallb_app, Hok. cbn [andb].
  destruct (Hrest (fst (fst (RunContext uf w initial))) _ HI) as [HIf Hokf].
  split; [exact Hokf|exact HIf].
Qed.

End RunInv.

(** ** The resource closer *)

Section Closer.

Variable uf : UFcli.
Variable w : World.

Lemma Before_closer (st : RunState) :
  currentCmd st = "" -> resourcesCloser st = None ->
  resourcesCloser (state (Before uf w) st) = hook_closer uf w.
Proof.
  intros Hcur Hnone. unfold Before, hook_closer, resolved. mrun.
  destruct (toml_load w) as [err|]; mrun; [exact Hnone|].
  rewrite Hcur.
  set (cmdNames := build_cmdNames (App.Commands (AppConfig uf))).
  set (scan := scan_args cmdNames (drop 1 (os_Args w)) "").
  destruct (snd scan); mrun; [exact Hnone|].
  destruct (bool_decide (size cmdNames = 0)); mrun.
  - change (bool_decide ("Action" = "")) with false. mrun.
    destruct (snd (fslock_Lock w (os_TempDir w) (lock_key uf "Action"))); mrun;
      [exact Hnone|].
    destruct (GlobalInit uf) as [[closer err]|]; mrun; [reflexivity|exact Hnone].
  - destruct (bool_decide (fst scan = "")); mrun; [exact Hnone|].
    destruct (snd (fslock_Lock w (os_TempDir w) (lock_key uf (fst scan)))); mrun;
      [exact Hnone|].
    destruct (GlobalInit uf) as [[closer err]|]; mrun; [reflexivity|exact Hnone].
Qed.

Lemma hook_events_no_closer : forallb no_closer (hook_events uf w) = true.
Proof.
  unfold hook_events. destruct (toml_load w); [reflexivity|].
  destruct (resolved uf w); [|reflexivity].
  destruct (snd _); [reflexivity|]. destruct (GlobalInit uf); reflexivity.
Qed.

(** Without a stored closer the sequence calls none. *)
Lemma unset_shutdown (b : bool) :
  sat (inv_rel (fun st => resourcesCloser st = None) no_closer) (shutdown uf b).
Proof.
  intros st H. rewrite shutdown_state, shutdown_events.
  destruct (once_done st); [split; [exact H|reflexivity]|].
  split; [exact H|]. rewrite shutdown_body_events, H.
  destruct (BeforeShutdown uf) as [[?|]|]; destruct b; reflexivity.
Qed.

(** Once the guard has fired the sequence does nothing. *)
Lemma done_shutdown (b : bool) :
  sat (inv_rel (fun st => once_done st = true) no_closer) (shutdown uf b).
Proof.
  intros st H. rewrite shutdown_state, shutdown_events, H.
  split; [exact H|reflexivity].
Qed.

Lemma closer_of_epilogue :
  resourcesCloser (epilogue_state uf w) = stored_closer uf w.
Proof.
  unfold epilogue_state, stored_closer.
  assert (Hsp : forall p st,
             resourcesCloser (state (signal_point uf w p) st) = resourcesCloser st).
  { intros p st. destruct (signal_point_state uf w p st) as [-> | ->]; reflexivity. }
  rewrite Hsp.
  assert (Hctx : resourcesCloser (state (RunContext uf w) initial)
                 = if engine_calls_Before w then hook_closer uf w else None).
  { unfold RunContext. mrun.
    destruct (signal_point_fresh uf w SigBeforeHook initial) as (Hc0 & _ & _).
    pose proof (Hsp SigBeforeHook initial) as Hr0.
    set (s0 := snd (fst (signal_point uf w SigBeforeHook initial))) in *.
    cbn in Hc0, Hr0.
    destruct (engine_calls_Before w); mrun.
    - pose proof (Before_closer s0 Hc0 Hr0) as Hb.
      destruct (fst (fst (Before uf w s0))); mrun; [exact Hb|].
      rewrite Hsp. exact Hb.
    - rewrite Hsp. exact Hr0. }
  destruct (run_outcome uf w); cbn [resourcesCloser set_scopeErr]; exact Hctx.
Qed.

Lemma closer_free_run :
  stored_closer uf w = None ->
  forallb no_closer (trace (RunAndExit uf w)) = true.
Proof.
  intros Hno.
  apply (run_inv uf w (fun st => resourcesCloser st = None) no_closer).
  - intros p. unfold signal_point, signal_watcher.
    inv_auto ltac:(apply unset_shutdown).
  - intros r. unfold deferred, emitEndLogs.
    inv_auto ltac:(apply unset_shutdown).
  - intros e st H. exact H.
  - assert (H : sat (inv_rel (fun st => resourcesCloser st = None) no_closer)
                    (signal_point uf w SigBeforeHook)).
    { unfold signal_point, signal_watcher. inv_auto ltac:(apply unset_shutdown). }
    apply (H initial eq_refl).
  - intros Hcalls st Hcur Hst. unfold stored_closer in Hno. rewrite Hcalls in Hno.
    rewrite (Before_closer st Hcur Hst).
    destruct (Before_fresh uf w st Hcur) as (_ & -> & _).
    split; [exact Hno|apply hook_events_no_closer].
Qed.

Lemma early_signal_no_closer :
  signal w = SigBeforeHook ->
  forallb no_closer (trace (RunAndExit uf w)) = true.
Proof.
  intros Hs.
  apply (run_inv uf w (fun st => once_done st = true) no_closer).
  - intros p. unfold signal_point, signal_watcher.
    inv_auto ltac:(apply done_shutdown).
  - intros r. unfold deferred, emitEndLogs.
    inv_auto ltac:(apply done_shutdown).
  - intros e st H. exact H.
  - unfold signal_point, fires_at. rewrite Hs. cbn [when].
    unfold signal_watcher. mrun.
    rewrite shutdown_state, shutdown_events. cbn [once_done initial].
    split; [reflexivity|].
    rewrite shutdown_body_events. cbn [resourcesCloser initial].
    destruct (BeforeShutdown uf) as [[?|]|]; reflexivity.
  - intros Hcalls st Hcur Hst.
    destruct (Before_fresh uf w st Hcur) as (_ & -> & _ & _ & _ & ->).
    split; [exact Hst|apply hook_events_no_closer].
Qed.

(** No signal: the guard is still fresh when the deferred function
    starts, and the trace is the hook's events and the epilogue's. *)
Lemma fresh_without_signal :
  signal w = SigNever ->
  once_done (epilogue_state uf w) = false
  /\ trace (RunAndExit uf w) =
       (if engine_calls_Before w then hook_events uf w else [])
       ++ events (deferred uf w (recovered uf w)) (epilogue_state uf w).
Proof.
  intros Hs. split.
  - unfold epilogue_state. rewrite (never_signal uf w _ _ Hs). cbn [fst snd].
    assert (Hctx : once_done (state (RunContext uf w) initial) = false).
    { unfold RunContext. mrun. rewrite !(never_signal uf w _ _ Hs). cbn [fst snd].
      destruct (engine_calls_Before w); mrun.
      - destruct (Before_fresh uf w initial eq_refl) as (_ & _ & _ & _ & _ & Hd).
        destruct (fst (fst (Before uf w initial))); mrun.
        + exact Hd.
        + rewrite (never_signal uf w _ _ Hs). exact Hd.
      - rewrite (never_signal uf w _ _ Hs). reflexivity. }
    destruct (run_outcome uf w); cbn [once_done set_scopeErr]; exact Hctx.
  - destruct (trace_shape uf w) as (s0 & s1 & s2 & -> & _ & _ & _ & Hnever).
    destruct (Hnever Hs) as (-> & -> & ->). reflexivity.
Qed.

End Closer.

Section CloserRuns.

Variable uf : UFcli.
Variable w : World.

Lemma shutdown_closer (b : bool) (st : RunState) :
  List.filter is_closer (events (shutdown uf b) st) =
  if once_done st then []
  else match resourcesCloser st with
       | Some _ => [CallResourcesCloser]
       | None => []
       end.
Proof.
  rewrite shutdown_events. destruct (once_done st); [reflexivity|].
  rewrite shutdown_body_events.
  destruct (BeforeShutdown uf) as [[?|]|]; destruct (resourcesCloser st) as [[?|]|];
    destruct b; reflexivity.
Qed.

Lemma shutdown_Sleep (b : bool) (st : RunState) :
  List.filter is_Sleep (events (shutdown uf b) st) =
  if once_done st then [] else if b then [] else [Sleep250ms].
Proof.
  rewrite shutdown_events. destruct (once_done st); [reflexivity|].
  rewrite shutdown_body_events.
  destruct (BeforeShutdown uf) as [[?|]|]; destruct (resourcesCloser st) as [[?|]|];
    destruct b; reflexivity.
Qed.

Lemma emitEndLogs_no_step (p : Event -> bool) (b : bool) (st : RunState) :
  (forall lvl msg args, p (Log lvl msg args) = false) ->
  (forall t j g a gs, p (Push t j g a gs) = false) ->
  List.filter p (events (emitEndLogs uf w b) st) = [].
Proof.
  intros HL HP. unfold emitEndLogs. mrun.
  destruct (currentCmdLock st); mrun; [|reflexivity].
  destruct (bool_decide (url (promPushConf st) = "")); mrun.
  - cbn [List.filter]. rewrite HL. reflexivity.
  - destruct (push_result w); mrun; cbn [List.filter]; rewrite ?HL, ?HP; reflexivity.
Qed.

Lemma hook_no_step (p : Event -> bool) :
  (forall lvl msg args, p (Log lvl msg args) = false) ->
  (forall path, p (LoadConfig path) = false) ->
  (forall d k, p (LockAttempt d k) = false) ->
  p CallGlobalInit = false ->
  List.filter p (if engine_calls_Before w then hook_events uf w else []) = [].
Proof.
  intros HL HC HA HG. destruct (engine_calls_Before w); [|reflexivity].
  unfold hook_events. cbn [List.filter]. rewrite HC.
  destruct (toml_load w); [reflexivity|].
  destruct (resolved uf w); [|reflexivity]. cbn [List.filter]. rewrite HA.
  destruct (snd _); [reflexivity|]. cbn [List.filter]. rewrite HL.
  destruct (GlobalInit uf); cbn [List.filter]; rewrite ?HG; reflexivity.
Qed.

(** The epilogue of a run without signal, filtered for a kind of event
    that only the shutdown sequence emits. *)
Lemma filter_without_signal (p : Event -> bool) :
  signal w = SigNever ->
  (forall lvl msg args, p (Log lvl msg args) = false) ->
  (forall t j g a gs, p (Push t j g a gs) = false) ->
  (forall path, p (LoadConfig path) = false) ->
  (forall d k, p (LockAttempt d k) = false) ->
  p CallGlobalInit = false ->
  exists st,
    List.filter p (trace (RunAndExit uf w)) =
      List.filter p (events (shutdown uf (bool_decide (code (RunAndExit uf w) = 0%Z)
                                         || silent_exit uf w)) st)
    /\ once_done st = false
    /\ resourcesCloser st = stored_closer uf w.
Proof.
  intros Hs HL HP HC HA HG.
  destruct (fresh_without_signal uf w Hs) as [Hfresh ->].
  rewrite List.filter_app, (hook_no_step p HL HC HA HG). cbn [app].
  rewrite code_spec. unfold silent_exit, recovered.
  destruct (epilogue_fresh uf w) as (He & _).
  pose proof (closer_of_epilogue uf w) as Hcl.
  destruct (run_outcome uf w) as [[e|]|v].
  - destruct (errors_As_LockedError e && negb (stderr_is_terminal w)) eqn:Hsil.
    + apply andb_prop in Hsil as [Ha Ht]. apply negb_true_iff in Ht.
      destruct (deferred_silent uf w e _ He Ha Ht) as (_ & _ & ->).
      exists (epilogue_state uf w). auto.
    + destruct (deferred_failure uf w e _ He Hsil) as (_ & _ & ->).
      cbn [List.filter]. rewrite HL, List.filter_app.
      rewrite (emitEndLogs_no_step p false _ HL HP). cbn [app].
      exists (epilogue_state uf w). auto.
  - destruct (deferred_success uf w _ He) as (_ & _ & ->).
    rewrite List.filter_app, (emitEndLogs_no_step p true _ HL HP). cbn [app].
    exists (epilogue_state uf w). auto.
  - destruct (deferred_recovered uf w v (epilogue_state uf w)) as (_ & _ & ->).
    cbn [List.filter]. rewrite HL, List.filter_app.
    rewrite (emitEndLogs_no_step p false _ HL HP). cbn [app].
    eexists. split; [reflexivity|]. split; [exact Hfresh|exact Hcl].
Qed.

End CloserRuns.

(** X15: the resource closer is called only if the engine ran the
    hook, the hook called [GlobalInit], and [GlobalInit] returned a
    closer; and in a run without a signal it is called exactly once when
    the hook stored one, and not at all otherwise. *)
Theorem closer_only_from_GlobalInit (uf : UFcli) (w : World) :
  (In CallResourcesCloser (trace (RunAndExit uf w)) ->
     engine_calls_Before w = true
     /\ In CallGlobalInit (trace (RunAndExit uf w))
     /\ exists closer err, GlobalInit uf = Some (Some closer, err))
  /\ (signal w = SigNever ->
      List.filter is_closer (trace (RunAndExit uf w)) =
      match stored_closer uf w with
      | Some _ => [CallResourcesCloser]
      | None => []
      end).
Proof.
  split.
  - intros Hin.
    destruct (stored_closer uf w) as [closer|] eqn:Hst.
    + unfold stored_closer, hook_closer in Hst.
      destruct (engine_calls_Before w) eqn:Hcalls; [|discriminate].
      destruct (toml_load w) eqn:Ht; [discriminate|].
      destruct (resolved uf w) as [cmd|] eqn:Hr; [|discriminate].
      destruct (snd (fslock_Lock w (os_TempDir w) (lock_key uf cmd))) eqn:Hl;
        [discriminate|].
      destruct (GlobalInit uf) as [[c err]|] eqn:Hg; [|discriminate].
      split; [reflexivity|]. split.
      * destruct (trace_shape uf w) as (s0 & s1 & s2 & -> & _).
        rewrite Hcalls. unfold hook_events. rewrite Ht, Hr, Hl, Hg.
        apply List.in_or_app. right. apply List.in_or_app. left.
        right. right. right. left. reflexivity.
      * exists closer, err. rewrite Hst. reflexivity.
    + exfalso. pose proof (closer_free_run uf w Hst) as Hfree.
      rewrite List.forallb_forall in Hfree. specialize (Hfree _ Hin). discriminate.
  - intros Hs.
    destruct (filter_without_signal uf w is_closer Hs) as (st & -> & Hd & Hc);
      try reflexivity.
    rewrite shutdown_closer, Hd, Hc. reflexivity.
Qed.

Lemma closer_only_from_GlobalInit_witness :
  List.filter is_closer (trace (RunAndExit sync_app sync_world)) = [CallResourcesCloser]
  /\ In CallGlobalInit (trace (RunAndExit sync_app sync_world))
  /\ exists closer err, GlobalInit sync_app = Some (Some closer, err).
Proof.
  destruct (closer_only_from_GlobalInit sync_app sync_world) as [Hin Hnever].
  split.
  - rewrite (Hnever eq_refl). reflexivity.
  - apply Hin. vm_compute. repeat (first [left; reflexivity | right]).
Defined.

(** X16: when the termination signal arrives before the hook has
    run, the resource closer is never called, although the hook may
    still run [GlobalInit] and store one afterwards: the shutdown
    sequence has had its only run by then. *)
Theorem early_signal_skips_closer (uf : UFcli) (w : World) :
  signal w = SigBeforeHook ->
  forallb no_closer (trace (RunAndExit uf w)) = true
  /\ (forall closer, stored_closer uf w = Some closer ->
        In CallGlobalInit (trace (RunAndExit uf w))).
Proof.
  intros Hs. split; [apply early_signal_no_closer; exact Hs|].
  intros closer Hst. unfold stored_closer, hook_closer in Hst.
  destruct (engine_calls_Before w) eqn:Hcalls; [|discriminate].
  destruct (toml_load w) eqn:Ht; [discriminate|].
  destruct (resolved uf w) as [cmd|] eqn:Hr; [|discriminate].
  destruct (snd (fslock_Lock w (os_TempDir w) (lock_key uf cmd))) eqn:Hl;
    [discriminate|].
  destruct (GlobalInit uf) as [[c err]|] eqn:Hg; [|discriminate].
  destruct (trace_shape uf w) as (s0 & s1 & s2 & -> & _).
  rewrite Hcalls. unfold hook_events. rewrite Ht, Hr, Hl, Hg.
  apply List.in_or_app. right. apply List.in_or_app. left.
  right. right. right. left. reflexivity.
Qed.

Lemma early_signal_skips_closer_witness :
  stored_closer sync_app early_signal_world = Some None
  /\ forallb no_closer (trace (RunAndExit sync_app early_signal_world)) = true
  /\ In CallGlobalInit (trace (RunAndExit sync_app early_signal_world)).
Proof.
  split; [reflexivity|].
  destruct (early_signal_skips_closer sync_app early_signal_world eq_refl) as [Hno Hinit].
  split; [exact Hno|]. apply (Hinit None). reflexivity.
Defined.

(** X17: in a run without a signal, the shutdown sequence waits the
    250 ms grace delay exactly once when the run exits with a non-zero
    code other than by the silent exit, and never otherwise. *)
Theorem grace_delay_without_signal (uf : UFcli) (w : World) :
  signal w = SigNever ->
  List.filter is_Sleep (trace (RunAndExit uf w)) =
  if bool_decide (code (RunAndExit uf w) = 0%Z) || silent_exit uf w
  then [] else [Sleep250ms].
Proof.
  intros Hs.
  destruct (filter_without_signal uf w is_Sleep Hs) as (st & -> & Hd & _);
    try reflexivity.
  rewrite shutdown_Sleep, Hd. reflexivity.
Qed.

Lemma grace_delay_without_signal_witness :
  List.filter is_Sleep (trace (RunAndExit sync_app bogus_world)) = [Sleep250ms]
  /\ List.filter is_Sleep (trace (RunAndExit sync_app sync_world)) = [].
Proof.
  split.
  - rewrite (grace_delay_without_signal sync_app bogus_world eq_refl). reflexivity.
  - rewrite (grace_delay_without_signal sync_app sync_world eq_refl). reflexivity.
Defined.

(** ** A configuration file that does not load *)

(** X18: when the configuration file cannot be loaded, the run ends
    with that error wrapped with the call frame of the hook and exits
    with code 1; no lock is asked for, no BEGIN or FINISH line is
    logged, nothing is pushed and the lock handle stays unset; unless
    the silent exit applies, the error is logged at error level with its
    frame. *)
Theorem config_failure (uf : UFcli) (w : World) (err : error) :
  engine_calls_Before w = true -> toml_load w = Some err ->
  run_outcome uf w = Returns (Some (cmnErr err (frame_toml w)))
  /\ code (RunAndExit uf w) = 1%Z
  /\ forallb quiet (trace (RunAndExit uf w)) = true
  /\ currentCmdLock (final (RunAndExit uf w)) = None
  /\ (errors_As_LockedError err && negb (stderr_is_terminal w) = false ->
      In (Log ErrorLevel (FormatError err +:+ frame_toml w) [])
         (trace (RunAndExit uf w))).
Proof.
  intros Hcalls Ht.
  destruct (RunContext_fresh uf w) as (Hout & _).
  rewrite Hcalls in Hout. unfold hook_error in Hout. rewrite Ht in Hout.
  split; [exact Hout|].
  split; [rewrite code_spec, Hout; reflexivity|].
  assert (Hq : forallb quiet (trace (RunAndExit uf w)) = true
               /\ unlocked (final (RunAndExit uf w))).
  { apply (quiet_run uf w unlocked); try (intros; assumption); try reflexivity.
    intros st H. unfold Before. mrun. rewrite Ht. mrun.
    split; [exact H|reflexivity]. }
  destruct Hq as [Hq Hl]. split; [exact Hq|]. split; [exact Hl|].
  intros Hloud.
  destruct (epilogue_fresh uf w) as (He & _). rewrite Hout in He.
  destruct (RunAndExit_split uf w) as (_ & _ & before & -> & _).
  unfold recovered. rewrite Hout.
  destruct (deferred_failure uf w _ _ He Hloud) as (_ & _ & ->).
  apply List.in_or_app. right. left. reflexivity.
Qed.

Lemma config_failure_witness :
  code (RunAndExit sync_app config_world) = 1%Z
  /\ In (Log ErrorLevel
           "open app.toml: no such file or directory (ufcli.go:214)" [])
        (trace (RunAndExit sync_app config_world)).
Proof.
  destruct (config_failure sync_app config_world
              (ErrorString "open app.toml: no such file or directory")
              eq_refl eq_refl) as (_ & Hcode & _ & _ & Hlog).
  split; [exact Hcode|]. apply Hlog. reflexivity.
Defined.

(** ** What is pushed *)

Lemma only_word_bytes_app (a b : string) :
  only_word_bytes (a +:+ b) = only_word_bytes a && only_word_bytes b.
Proof.
  unfold only_word_bytes. rewrite list_ascii_of_string_app. apply List.forallb_app.
Qed.

Lemma only_word_bytes_clean (t : string) :
  clean_token t = true -> only_word_bytes t = true.
Proof.
  intros H. unfold only_word_bytes. apply List.forallb_forall. intros c Hc.
  destruct (clean_from_chars t false H c Hc) as [Ha| ->].
  - rewrite Ha. reflexivity.
  - reflexivity.
Qed.

Lemma emitEndLogs_push_ok (uf : UFcli) (w : World) (b : bool) (st : RunState) :
  forallb push_ok (events (emitEndLogs uf w b) st) = true.
Proof.
  unfold emitEndLogs. mrun.
  destruct (currentCmdLock st); mrun; [|reflexivity].
  destruct (bool_decide (url (promPushConf st) = "")) eqn:Hurl; mrun; [reflexivity|].
  apply bool_decide_eq_false in Hurl. apply String.eqb_neq in Hurl.
  assert (Hpush : forall grouping auth,
             (match grouping with Some g => clean_token g | None => true end) = true ->
             push_ok
               (Push (url (promPushConf st)) (promStr (currentCmd st)) grouping auth
                  [tookGauge uf st (Truncate (elapsed w) Millisecond);
                   successGauge uf st b]) = true).
  { intros grouping auth Hg. cbn [push_ok]. rewrite Hurl, Hg.
    rewrite promStr_clean. unfold tookGauge, successGauge, cmdFqName. cbn [fst forallb].
    rewrite !only_word_bytes_app, (only_word_bytes_clean _ (promStr_clean _)).
    reflexivity. }
  destruct (push_result w); mrun; cbn [forallb]; rewrite Hpush; try reflexivity;
    destruct (bool_decide (instance (promPushConf st) = "")); try reflexivity;
    apply promStr_clean.
Qed.

(** X19: every push of a run is well formed: its target is not
    empty, and its job name, its grouping instance and the names of its
    gauges hold only alphanumerics and underscores.  A run pushes at
    most once, and never when no push URL is configured. *)
Theorem pushes_are_sanitised (uf : UFcli) (w : World) :
  forallb push_ok (trace (RunAndExit uf w)) = true
  /\ List.length (List.filter is_Push (trace (RunAndExit uf w))) <= 1
  /\ (flag_url w = "" ->
      forallb (fun e => negb (is_Push e)) (trace (RunAndExit uf w)) = true).
Proof.
  split; [|split].
  - assert (H : sat (inv_rel (fun _ => True) push_ok) (RunAndExit_body uf w)).
    { unfold RunAndExit_body, RunContext, Before, deferred, signal_point, signal_watcher.
      inv_auto ltac:(intros st _; split; [exact Logic.I|apply emitEndLogs_push_ok]). }
    apply (H initial Logic.I).
  - assert (Hc : forall e, is_cleanup e = true -> is_Push e = false).
    { intros [[| |] msg args| | | | | | | | |]; cbn; try discriminate; reflexivity. }
    rewrite (trace_filter uf w is_Push Hc).
    rewrite (hook_no_step uf w is_Push); try reflexivity. cbn [app].
    assert (Hsh : forall b st, List.filter is_Push (events (shutdown uf b) st) = []).
    { intros b st. apply filter_none.
      apply (forallb_weaken not_record); [|apply shutdown_not_record].
      intros e H. unfold not_record in H. apply negb_true_iff in H.
      apply orb_false_elim in H as [H _]. apply orb_false_elim in H as [_ H].
      rewrite H. reflexivity. }
    assert (Hem : forall b st,
               List.length (List.filter is_Push (events (emitEndLogs uf w b) st)) <= 1).
    { intros b st. unfold emitEndLogs. mrun.
      destruct (currentCmdLock st); mrun; [|cbn; lia].
      destruct (bool_decide _); mrun; [cbn; lia|].
      destruct (push_result w); mrun; cbn; lia. }
    destruct (epilogue_fresh uf w) as (He & _). unfold recovered.
    destruct (run_outcome uf w) as [[e|]|v].
    + destruct (errors_As_LockedError e && negb (stderr_is_terminal w)) eqn:Hs.
      * apply andb_prop in Hs as [Ha Ht]. apply negb_true_iff in Ht.
        destruct (deferred_silent uf w e _ He Ha Ht) as (_ & _ & ->).
        rewrite Hsh. cbn. lia.
      * destruct (deferred_failure uf w e _ He Hs) as (_ & _ & ->).
        cbn [List.filter is_Push]. rewrite List.filter_app, Hsh, List.app_nil_r.
        apply Hem.
    + destruct (deferred_success uf w _ He) as (_ & _ & ->).
      rewrite List.filter_app, Hsh, List.app_nil_r. apply Hem.
    + destruct (deferred_recovered uf w v (epilogue_state uf w)) as (_ & _ & ->).
      cbn [List.filter is_Push]. rewrite List.filter_app, Hsh, List.app_nil_r.
      apply Hem.
  - intros Hflag.
    assert (H : sat (inv_rel (fun st => url (promPushConf st) = "")
                       (fun e => negb (is_Push e))) (RunAndExit_body uf w)).
    { unfold RunAndExit_body, RunContext, Before, deferred, signal_point, signal_watcher.
      inv_auto ltac:(intros st Hst; rewrite emitEndLogs_state; split; [exact Hst|];
                     unfold emitEndLogs; mrun;
                     destruct (currentCmdLock st); mrun; [|reflexivity];
                     rewrite (bool_decide_eq_true_2 _ Hst); reflexivity). }
    apply (H initial eq_refl).
Qed.

Lemma pushes_are_sanitised_witness :
  forallb (fun e => negb (is_Push e)) (trace (RunAndExit sync_app sync_world)) = true
  /\ List.length (List.filter is_Push (trace (RunAndExit sync_app push_world))) = 1
  /\ forallb push_ok (trace (RunAndExit sync_app push_world)) = true.
Proof.
  split; [|split].
  - destruct (pushes_are_sanitised sync_app sync_world) as (_ & _ & H).
    apply H. reflexivity.
  - vm_compute. reflexivity.
  - destruct (pushes_are_sanitised sync_app push_world) as (H & _). exact H.
Defined.

(** ** A silent exit after BEGIN *)

(** X20: when [GlobalInit] fails with a lock error and the error
    stream is no terminal, the run exits with code 1 after its BEGIN
    line was logged, but writes neither an error line nor a FINISH line
    and pushes nothing. *)
Theorem silent_exit_after_BEGIN (uf : UFcli) (w : World) (cmd : string)
    (closer : option (option error)) (e : error) :
  engine_calls_Before w = true -> toml_load w = None ->
  resolved uf w = Some cmd ->
  snd (fslock_Lock w (os_TempDir w) (lock_key uf cmd)) = None ->
  GlobalInit uf = Some (closer, Some e) ->
  errors_As_LockedError e = true -> stderr_is_terminal w = false ->
  code (RunAndExit uf w) = 1%Z
  /\ In (Log InfoLevel ("=== BEGIN '" +:+ cmd +:+ "' run") [])
        (trace (RunAndExit uf w))
  /\ forallb not_record (trace (RunAndExit uf w)) = true.
Proof.
  intros Hcalls Ht Hr Hl Hg Has Htty.
  destruct (RunContext_fresh uf w) as (Hout & _).
  rewrite Hcalls in Hout. unfold hook_error in Hout.
  rewrite Ht, Hr, Hl, Hg in Hout. cbn [WrErr] in Hout.
  split; [rewrite code_spec, Hout; reflexivity|].
  split.
  { destruct (trace_shape uf w) as (s0 & s1 & s2 & -> & _).
    rewrite Hcalls. unfold hook_events. rewrite Ht, Hr, Hl.
    apply List.in_or_app. right. apply List.in_or_app. left.
    right. right. left. reflexivity. }
  destruct (epilogue_fresh uf w) as (He & _). rewrite Hout in He.
  destruct (RunAndExit_split uf w) as (_ & _ & before & Htr & Hbefore).
  pose proof (prelude_not_record uf w) as Hpre. rewrite <- Hbefore in Hpre.
  unfold recovered in Htr. rewrite Hout in Htr.
  destruct (deferred_silent uf w _ _ He Has Htty) as (_ & _ & Hd).
  rewrite Htr, Hd, List.forallb_app, Hpre. apply shutdown_not_record.
Qed.

Lemma silent_exit_after_BEGIN_witness :
  code (RunAndExit init_locked_app sync_world) = 1%Z
  /\ In (Log InfoLevel "=== BEGIN 'sync' run" [])
        (trace (RunAndExit init_locked_app sync_world))
  /\ forallb not_record (trace (RunAndExit init_locked_app sync_world)) = true.
Proof.
  apply (silent_exit_after_BEGIN init_locked_app sync_world "sync" None
           (PathError "lock" "/var/db.lock" (LockedError "someone else has the lock")));
    reflexivity.
Defined.
